(** * CaRMS data platform: transformation, load and retrieval core

    A shallow embedding of the Python sources
      - dagster_pipeline/assets/transform.py
      - dagster_pipeline/assets/load.py, embeddings.py, models/database.py
      - api/routes/semantic_search.py
    together with the properties stated about them.

    Conventions of the embedding.
      - A Python [str] is the list of the bytes of its UTF-8 encoding
        ([list ascii]); Rocq string literals in this file are UTF-8 too, so
        ["Université Laval"] denotes the same bytes as the Python literal.
        Case mapping and the character classes [\s] and [\d] are those of the
        ASCII range; bytes above 127 are left alone by [upper] and belong to
        no class but [.].
      - Python [int] is [Z]; [None] is [None]; a raised exception is an
        explicit error value.  A [float] is the rational it denotes.
      - A pandas frame is an ordered list of row records; NaN/null cells are
        [None].
      - The database is a record of five tables with its foreign keys and
        serial counters; a session has a committed and a working state. *)

From Stdlib Require Import List Ascii String ZArith NArith Lia Bool Arith.
From Stdlib Require Import QArith Qround DecimalString Permutation Sorted.
Import ListNotations.

Local Open Scope list_scope.

(** ** Python strings *)

Module Str.

Definition str := list ascii.

(** A literal of the source. *)
Definition lit (x : string) : str := list_ascii_of_string x.

Definition code (c : ascii) : N := N_of_ascii c.

Definition is_lower (c : ascii) : bool := (97 <=? code c)%N && (code c <=? 122)%N.
Definition is_upper (c : ascii) : bool := (65 <=? code c)%N && (code c <=? 90)%N.

(** [str.upper] and [str.lower], one character at a time, on the ASCII
    letters.  (Python also maps a few characters outside ASCII to ASCII
    capitals, such as the dotless i and the fi ligatures; such bytes are left
    alone here.) *)
Definition upper_char (c : ascii) : ascii :=
  if is_lower c then ascii_of_N (code c - 32) else c.

Definition lower_char (c : ascii) : ascii :=
  if is_upper c then ascii_of_N (code c + 32) else c.

Definition upper (x : str) : str := map upper_char x.

(** [x.startswith(pat)] and [pat in x]. *)
Fixpoint startswith (pat x : str) : bool :=
  match pat, x with
  | [], _ => true
  | _ :: _, [] => false
  | p :: pat', c :: x' => Ascii.eqb p c && startswith pat' x'
  end.

Fixpoint contains (pat x : str) : bool :=
  startswith pat x ||
  match x with
  | [] => false
  | _ :: x' => contains pat x'
  end.

(** Whitespace as [str.isspace] and the regex class [\s] see it. *)
Definition is_space (c : ascii) : bool :=
  ((9 <=? code c)%N && (code c <=? 13)%N)
  || ((28 <=? code c)%N && (code c <=? 32)%N).

Definition is_digit (c : ascii) : bool := (48 <=? code c)%N && (code c <=? 57)%N.

Definition newline : ascii := "010"%char.

Fixpoint lstrip_by (p : ascii -> bool) (x : str) : str :=
  match x with
  | c :: x' => if p c then lstrip_by p x' else x
  | [] => []
  end.

Definition rstrip_by (p : ascii -> bool) (x : str) : str :=
  rev (lstrip_by p (rev x)).

(** [x.strip()] and [x.strip(chars)]. *)
Definition strip_by (p : ascii -> bool) (x : str) : str :=
  rstrip_by p (lstrip_by p x).

Definition strip (x : str) : str := strip_by is_space x.

Definition strip_chars (chars : str) (x : str) : str :=
  strip_by (fun c => existsb (Ascii.eqb c) chars) x.

(** The number a string of decimal digits denotes. *)
Definition digit_value (c : ascii) : Z := Z.of_N (code c) - 48.

Definition int_of_digits (x : str) : Z :=
  fold_left (fun acc c => 10 * acc + digit_value c)%Z x 0%Z.

(** Lexicographic order on strings, by character code. *)
Fixpoint ltb (x y : str) : bool :=
  match x, y with
  | [], [] => false
  | [], _ :: _ => true
  | _ :: _, [] => false
  | a :: x', b :: y' =>
      if (code a <? code b)%N then true
      else if (code b <? code a)%N then false
      else ltb x' y'
  end.

Definition eqb (x y : str) : bool :=
  if list_eq_dec ascii_dec x y then true else false.

(** *** Reading "in any case"

    The relation below is the reading of "the same text up to letter case",
    stated without reference to [upper] or [lower]. *)




End Str.

Import Str.

(** ** Regular expressions, as [re.search] runs them

    The two patterns of transform.py use literals, one-character classes,
    concatenation, alternation, a greedy optional group, greedy and lazy
    repetition of one-character classes, one capture group and [$].  The
    matcher below is a backtracking matcher with Python's priorities: greedy
    repetition tries the longest run first, lazy repetition the shortest, an
    alternation its left branch first, and [search] the leftmost start. *)

Module Regex.

Inductive regex : Type :=
| Chr (c : ascii)                 (* a literal character *)
| Any (p : ascii -> bool)         (* one character of a class *)
| Cat (r1 r2 : regex)             (* r1 r2 *)
| Alt (r1 r2 : regex)             (* r1|r2 *)
| Opt (r : regex)                 (* (?:r)? *)
| Star (p : ascii -> bool)        (* [class]* , greedy *)
| LazyPlus (p : ascii -> bool)    (* [class]+? *)
| Group (r : regex)               (* (r), capture group 1 *)
| Eos.                            (* $ *)

(** [[class]+], greedy. *)
Definition Plus (p : ascii -> bool) : regex := Cat (Any p) (Star p).

(** A literal word, character by character. *)
Fixpoint word (w : str) : regex :=
  match w with
  | [] => Opt (Any (fun _ => false))
  | [c] => Chr c
  | c :: w' => Cat (Chr c) (word w')
  end.

(** How a literal character compares with an input character; [ic] is the
    [re.IGNORECASE] flag. *)
Definition chr_match (ic : bool) (c x : ascii) : bool :=
  if ic then Ascii.eqb (lower_char c) (lower_char x) else Ascii.eqb c x.

Section Matcher.

Variable ic : bool.
Variable R : Type.

Fixpoint star_greedy (p : ascii -> bool) (x : str) (k : str -> option R)
  : option R :=
  match x with
  | c :: x' =>
      if p c then
        match star_greedy p x' k with
        | Some v => Some v
        | None => k x
        end
      else k x
  | [] => k x
  end.

Fixpoint plus_lazy (p : ascii -> bool) (x : str) (k : str -> option R)
  : option R :=
  match x with
  | c :: x' =>
      if p c then
        match k x' with
        | Some v => Some v
        | None => plus_lazy p x' k
        end
      else None
  | [] => None
  end.

(** [bt r cap x k]: match [r] at the head of [x] with group 1 currently
    [cap], and hand the new group and the rest of the input to [k]; when [k]
    fails, try the next way of matching [r]. *)
Fixpoint bt (r : regex) (cap : option str) (x : str)
  (k : option str -> str -> option R) : option R :=
  match r with
  | Chr c =>
      match x with
      | a :: x' => if chr_match ic c a then k cap x' else None
      | [] => None
      end
  | Any p =>
      match x with
      | a :: x' => if p a then k cap x' else None
      | [] => None
      end
  | Cat r1 r2 => bt r1 cap x (fun cap' x' => bt r2 cap' x' k)
  | Alt r1 r2 =>
      match bt r1 cap x k with
      | Some v => Some v
      | None => bt r2 cap x k
      end
  | Opt r1 =>
      match bt r1 cap x k with
      | Some v => Some v
      | None => k cap x
      end
  | Star p => star_greedy p x (k cap)
  | LazyPlus p => plus_lazy p x (k cap)
  | Group r1 =>
      bt r1 cap x
        (fun _ x' => k (Some (firstn (List.length x - List.length x') x)) x')
  | Eos =>
      match x with
      | [] => k cap x
      | [a] => if Ascii.eqb a newline then k cap x else None
      | _ => None
      end
  end.

End Matcher.

(** A match object: all this code reads of it is [group(1)]. *)
Record Match := { group1 : option str }.

(** [re.search(r, x, flags)]: the first start position, left to right, at
    which the pattern matches. *)
Fixpoint search (ic : bool) (r : regex) (x : str) : option Match :=
  match bt ic Match r None x (fun cap _ => Some {| group1 := cap |}) with
  | Some m => Some m
  | None =>
      match x with
      | [] => None
      | _ :: x' => search ic r x'
      end
  end.

(** *** What a match is

    [matches ic r cap x cap' x']: [r] matches a prefix of [x], leaving [x'],
    and takes group 1 from [cap] to [cap']. *)
Inductive matches (ic : bool)
  : regex -> option str -> str -> option str -> str -> Prop :=
| m_chr c a x cap :
    chr_match ic c a = true -> matches ic (Chr c) cap (a :: x) cap x
| m_any p a x cap :
    p a = true -> matches ic (Any p) cap (a :: x) cap x
| m_cat r1 r2 cap x cap1 x1 cap2 x2 :
    matches ic r1 cap x cap1 x1 -> matches ic r2 cap1 x1 cap2 x2 ->
    matches ic (Cat r1 r2) cap x cap2 x2
| m_alt_l r1 r2 cap x cap' x' :
    matches ic r1 cap x cap' x' -> matches ic (Alt r1 r2) cap x cap' x'
| m_alt_r r1 r2 cap x cap' x' :
    matches ic r2 cap x cap' x' -> matches ic (Alt r1 r2) cap x cap' x'
| m_opt_some r cap x cap' x' :
    matches ic r cap x cap' x' -> matches ic (Opt r) cap x cap' x'
| m_opt_none r cap x : matches ic (Opt r) cap x cap x
| m_star p run x cap :
    forallb p run = true -> matches ic (Star p) cap (run ++ x) cap x
| m_lazy p run x cap :
    forallb p run = true -> run <> [] ->
    matches ic (LazyPlus p) cap (run ++ x) cap x
| m_group r cap x cap' got x' :
    matches ic r cap (got ++ x') cap' x' -> x = got ++ x' ->
    matches ic (Group r) cap x (Some got) x'
| m_eos_end cap : matches ic Eos cap [] cap []
| m_eos_nl cap : matches ic Eos cap [newline] cap [newline].

End Regex.

Import Regex.

(** ** Exceptions and results *)

Module Py.

Inductive table : Type :=
| Disciplines | Institutions | Programs | ProgramDescriptions | ProgramEmbeddings.

(** What the database rejects. *)
Inductive integrity : Type :=
| ForeignKeyOnDelete (parent : table)    (* rows of [parent] are still referenced *)
| ForeignKeyOnInsert (child : table)     (* a new row of [child] points nowhere *)
| UniqueViolation (t : table).           (* primary key or unique column *)

Inductive exn : Type :=
| AssertionError (msg : str)
| KeyError (missing : list str)
| IntegrityError (what : integrity)
| HTTPException (status_code : Z) (detail : str)
| ValueError (msg : str)
| TypeError (msg : str)
| Exception (msg : str).                 (* any other; [msg] is [str(e)] *)

(** [str(e)] *)
Definition exn_str (e : exn) : str :=
  match e with
  | AssertionError msg => msg
  | HTTPException _ detail => detail
  | ValueError msg => msg
  | TypeError msg => msg
  | Exception msg => msg
  | KeyError _ | IntegrityError _ => []
  end.

Inductive result (A : Type) : Type :=
| Ok (a : A)
| Raise (e : exn).

Arguments Ok {A} a.
Arguments Raise {A} e.

(** [str(n)] for an integer. *)
Definition str_of_Z (n : Z) : str :=
  lit (DecimalString.NilZero.string_of_int (Z.to_int n)).

(** [int(x)] for a string of decimal digits.  The interpreter refuses to
    convert a string of more than [int_max_str_digits] digits (4300 unless
    reconfigured). *)
Definition int_max_str_digits : nat := 4300.

Definition int (x : str) : result Z :=
  if Nat.ltb int_max_str_digits (List.length x)
  then Raise (ValueError
                (lit "Exceeds the limit (4300 digits) for integer string conversion: value has "
                 ++ str_of_Z (Z.of_nat (List.length x))
                 ++ lit " digits; use sys.set_int_max_str_digits() to increase the limit"))
  else Ok (int_of_digits x).

(** [col.is_unique] on a column of integers. *)
Fixpoint is_unique (l : list Z) : bool :=
  match l with
  | [] => true
  | a :: l' => negb (existsb (Z.eqb a) l') && is_unique l'
  end.

Fixpoint is_unique_str (l : list str) : bool :=
  match l with
  | [] => true
  | a :: l' => negb (existsb (Str.eqb a) l') && is_unique_str l'
  end.

(** A computation over a store [S] that may raise: the store is threaded
    through, and survives an exception. *)
Definition M (S A : Type) : Type := S -> result A * S.

Definition ret {S A} (a : A) : M S A := fun st => (Ok a, st).

Definition bind {S A B} (c : M S A) (k : A -> M S B) : M S B :=
  fun st =>
    match c st with
    | (Ok a, st') => k a st'
    | (Raise e, st') => (Raise e, st')
    end.

Definition raise {S A} (e : exn) : M S A := fun st => (Raise e, st).

(** [try: c except Exception as e: h e]. *)
Definition try_except {S A} (c : M S A) (h : exn -> M S A) : M S A :=
  fun st =>
    match c st with
    | (Ok a, st') => (Ok a, st')
    | (Raise e, st') => h e st'
    end.

(** [for x in l: body x]. *)
Fixpoint for_each {S A} (l : list A) (body : A -> M S unit) : M S unit :=
  match l with
  | [] => ret tt
  | x :: l' => bind (body x) (fun _ => for_each l' body)
  end.

End Py.

Import Py.

Notation "x <- c ;; k" := (bind c (fun x => k))
  (at level 61, c at next level, right associativity).
Notation "c ;;; k" := (bind c (fun _ => k))
  (at level 61, right associativity).

(** ** transform.py *)

Module Transform.

(** French-language universities in CaRMS. *)
Definition FRENCH_SCHOOLS : list str :=
  [ lit "Université Laval";
    lit "Université de Sherbrooke";
    lit "Université de Montréal" ].

(** Sections to extract from the wide CSV. *)
Definition SECTION_COLUMNS : list str :=
  [ lit "program_name";
    lit "match_iteration_name";
    lit "program_contracts";
    lit "general_instructions";
    lit "supporting_documentation_information";
    lit "review_process";
    lit "interviews";
    lit "selection_criteria";
    lit "program_highlights";
    lit "program_curriculum";
    lit "training_sites";
    lit "additional_information";
    lit "return_of_service";
    lit "faq";
    lit "summary_of_changes" ].

(** Maps the stream types to 3 categories. *)
Definition derive_stream_category (stream : str) : str :=
  let stream_upper := upper stream in
  if contains (lit "IMG") stream_upper then lit "IMG"
  else if contains (lit "CMG") stream_upper then lit "CMG"
  else lit "All".

(** *** Quota *)

Definition colon_or_space (c : ascii) : bool := Ascii.eqb c ":" || is_space c.
Definition is_newline (c : ascii) : bool := Ascii.eqb c newline.
Definition not_newline (c : ascii) : bool := negb (Ascii.eqb c newline).

(** [Approximate Quota[:\s]*\n+\s*(?:##)?\s*(\d+)] *)
Definition quota_re : regex :=
  Cat (word (lit "Approximate Quota"))
 (Cat (Star colon_or_space)
 (Cat (Plus is_newline)
 (Cat (Star is_space)
 (Cat (Opt (word (lit "##")))
 (Cat (Star is_space)
      (Group (Plus is_digit))))))).

Definition extract_quota (markdown_text : str) : result (option Z) :=
  match search true quota_re markdown_text with
  | Some m =>
      match group1 m with
      | Some digits =>
          match int digits with
          | Ok n => Ok (Some n)
          | Raise e => Raise e
          end
      | None =>
          Raise (TypeError
                   (lit "int() argument must be a string, a bytes-like object or a real number, not 'NoneType'"))
      end
  | None => Ok None
  end.

(** *** Accreditation *)

(** U+2019, e-acute and E-acute, as their UTF-8 bytes. *)
Definition right_quote : regex := word (lit "’").
Definition e_acute : regex := Alt (word (lit "é")) (word (lit "É")).

(** [Statut d['’]agr[ée]ment]; under IGNORECASE the class [[ée]] also
    takes the two capitals. *)
Definition statut_re : regex :=
  Cat (word (lit "Statut d"))
 (Cat (Alt (Chr "'") right_quote)
 (Cat (word (lit "agr"))
 (Cat (Alt (Chr "e") e_acute)
      (word (lit "ment"))))).

(** [(?:##)?\s*(?:Accreditation status|Statut ...)\s*:\s*(.+?)(?:\n|$)] *)
Definition accreditation_re : regex :=
  Cat (Opt (word (lit "##")))
 (Cat (Star is_space)
 (Cat (Alt (word (lit "Accreditation status")) statut_re)
 (Cat (Star is_space)
 (Cat (Chr ":")
 (Cat (Star is_space)
 (Cat (Group (LazyPlus not_newline))
      (Alt (Chr newline) Eos))))))).

(** [.strip().strip("#").strip("*").strip()] *)
Definition clean_value (x : str) : str :=
  strip (strip_chars (lit "*") (strip_chars (lit "#") (strip x))).

Definition extract_accreditation (markdown_text : str) : option str :=
  match search true accreditation_re markdown_text with
  | Some m =>
      match group1 m with
      | Some value => Some (clean_value value)
      | None => None
      end
  | None => None
  end.

(** *** Institutions *)

(** The columns of the program master table that the pipeline reads. *)
Record RawProgram := {
  program_stream_id : Z;
  discipline_id : Z;
  school_id : Z;
  school_name : str;
  program_name : str;
  program_site : str;
  program_stream : str;
  program_url : str
}.

Record Institution := {
  inst_id : Z;
  inst_name : str;
  inst_language : str
}.

(** [df.groupby("school_name")["school_id"].min()]: one entry per key, keys
    in sorted order, each with the least id of its group.  A row either
    lowers the entry of its key or opens a new entry at the key's place. *)
Fixpoint update_min (name : str) (id : Z) (groups : list (str * Z))
  : list (str * Z) :=
  match groups with
  | [] => []
  | (n, m) :: rest =>
      if Str.eqb name n then (n, Z.min m id) :: rest
      else (n, m) :: update_min name id rest
  end.

Fixpoint insert_sorted (name : str) (id : Z) (groups : list (str * Z))
  : list (str * Z) :=
  match groups with
  | [] => [(name, id)]
  | (n, m) :: rest =>
      if Str.ltb name n then (name, id) :: groups
      else (n, m) :: insert_sorted name id rest
  end.

Definition group_min_insert (name : str) (id : Z) (groups : list (str * Z))
  : list (str * Z) :=
  if existsb (fun g => Str.eqb name (fst g)) groups
  then update_min name id groups
  else insert_sorted name id groups.

Definition groupby_min (rows : list RawProgram) : list (str * Z) :=
  fold_left (fun g r => group_min_insert (school_name r) (school_id r) g)
            rows [].

Definition language_of (name : str) : str :=
  if existsb (Str.eqb name) FRENCH_SCHOOLS then lit "fr" else lit "en".

(** The frame built before the two assertions. *)
Definition institutions_frame (raw_programs : list RawProgram)
  : list Institution :=
  map (fun g => {| inst_id := snd g;
                   inst_name := fst g;
                   inst_language := language_of (fst g) |})
      (groupby_min raw_programs).

Definition stg_institutions (raw_programs : list RawProgram)
  : result (list Institution) :=
  let institutions := institutions_frame raw_programs in
  if negb (Nat.eqb (List.length institutions) 18) then
    Raise (AssertionError
             (lit "Expected 18 institutions, got "
              ++ str_of_Z (Z.of_nat (List.length institutions))))
  else if negb (is_unique (map inst_id institutions)) then
    Raise (AssertionError (lit "Duplicate institution IDs"))
  else Ok institutions.

(** *** Sections *)

(** The wide frame: its column names, and per row the id column and the
    cells under the other columns, in column order.  A null cell is [None]. *)
Record SectionsFrame := {
  columns : list str;
  rows : list (Z * list (option str))
}.

Fixpoint index_of (c : str) (cols : list str) : option nat :=
  match cols with
  | [] => None
  | c' :: cols' =>
      if Str.eqb c c' then Some 0%nat
      else option_map S (index_of c cols')
  end.

(** The cell of a row under column [c]. *)
Definition cell (cols : list str) (row : Z * list (option str)) (c : str)
  : option str :=
  match index_of c cols with
  | Some i => nth i (snd row) None
  | None => None
  end.

Record Melted := {
  m_program_description_id : Z;
  m_section_name : str;
  m_content : option str
}.

(** [df.melt(id_vars=[id], value_vars=value_vars)]: column by column, and
    within a column row by row; a missing column is a KeyError. *)
Definition melt (df : SectionsFrame) (value_vars : list str)
  : result (list Melted) :=
  match filter (fun c => negb (existsb (Str.eqb c) (columns df))) value_vars with
  | [] =>
      Ok (flat_map
            (fun c =>
               map (fun row => {| m_program_description_id := fst row;
                                  m_section_name := c;
                                  m_content := cell (columns df) row c |})
                   (rows df))
            value_vars)
  | missing => Raise (KeyError missing)
  end.

Record Section := {
  program_id : Z;
  section_name : str;
  content : str
}.

(** [melted.dropna(subset=["content"])], then the rename and projection. *)
Definition dropna (melted : list Melted) : list Section :=
  flat_map
    (fun m =>
       match m_content m with
       | Some text => [ {| program_id := m_program_description_id m;
                           section_name := m_section_name m;
                           content := text |} ]
       | None => []
       end)
    melted.

Definition stg_sections (raw_sections : SectionsFrame)
  : result (list Section) :=
  match melt raw_sections SECTION_COLUMNS with
  | Ok melted => Ok (dropna melted)
  | Raise e => Raise e
  end.

End Transform.

(** ** models/database.py, load.py and embeddings.py

    The five tables, the session that the load stages open on them, and the
    stages themselves.  The [created_at] columns (wall-clock time of the
    insert) are left out of the rows. *)

Module Load.

Section WithEncoder.

(** The embedding vectors and [SentenceTransformer.encode]. *)
Variable Vec : Type.
Variable encode : list str -> list Vec.

(** *** Tables *)

Record Discipline := { dis_id : Z; dis_name : str }.

Record Institution := { ins_id : Z; ins_name : str; ins_language : str }.

Record Program := {
  prg_id : Z;
  prg_discipline_id : Z;          (* foreign key: disciplines.id *)
  prg_institution_id : Z;         (* foreign key: institutions.id *)
  prg_name : str;
  prg_site : str;
  prg_stream : str;
  prg_stream_category : str;
  prg_quota : option Z;
  prg_accreditation : option str;
  prg_source_url : str
}.

Record ProgramDescription := {
  dsc_id : Z;                     (* serial *)
  dsc_program_id : Z;             (* foreign key: programs.id *)
  dsc_section_name : str;
  dsc_content : str
}.

Record ProgramEmbedding := {
  emb_id : Z;                     (* serial *)
  emb_program_id : Z;             (* foreign key: programs.id *)
  emb_chunk_index : Z;
  emb_chunk_text : str;
  emb_embedding : Vec
}.

Record Database := {
  disciplines : list Discipline;
  institutions : list Institution;
  programs : list Program;
  program_descriptions : list ProgramDescription;
  program_embeddings : list ProgramEmbedding
}.

(** The two serial counters: the next id each will hand out.  Sequences are
    not transactional: a rollback does not rewind them. *)
Record Sequences := {
  program_descriptions_id_seq : Z;
  program_embeddings_id_seq : Z
}.

(** [references child parent]: [child] has a foreign key into [parent]. *)
Definition references (child parent : table) : bool :=
  match child, parent with
  | Programs, Disciplines => true
  | Programs, Institutions => true
  | ProgramDescriptions, Programs => true
  | ProgramEmbeddings, Programs => true
  | _, _ => false
  end.

Definition mem (x : Z) (l : list Z) : bool := existsb (Z.eqb x) l.

(** Some row of a child table points at a row of [t]: deleting the rows of
    [t] is then refused. *)
Definition referenced (t : table) (db : Database) : bool :=
  match t with
  | Disciplines =>
      existsb (fun p => mem (prg_discipline_id p) (map dis_id (disciplines db)))
              (programs db)
  | Institutions =>
      existsb (fun p => mem (prg_institution_id p) (map ins_id (institutions db)))
              (programs db)
  | Programs =>
      existsb (fun d => mem (dsc_program_id d) (map prg_id (programs db)))
              (program_descriptions db)
      || existsb (fun e => mem (emb_program_id e) (map prg_id (programs db)))
                 (program_embeddings db)
  | ProgramDescriptions => false
  | ProgramEmbeddings => false
  end.

Definition clear (t : table) (db : Database) : Database :=
  match t with
  | Disciplines =>
      {| disciplines := []; institutions := institutions db;
         programs := programs db;
         program_descriptions := program_descriptions db;
         program_embeddings := program_embeddings db |}
  | Institutions =>
      {| disciplines := disciplines db; institutions := [];
         programs := programs db;
         program_descriptions := program_descriptions db;
         program_embeddings := program_embeddings db |}
  | Programs =>
      {| disciplines := disciplines db; institutions := institutions db;
         programs := [];
         program_descriptions := program_descriptions db;
         program_embeddings := program_embeddings db |}
  | ProgramDescriptions =>
      {| disciplines := disciplines db; institutions := institutions db;
         programs := programs db;
         program_descriptions := [];
         program_embeddings := program_embeddings db |}
  | ProgramEmbeddings =>
      {| disciplines := disciplines db; institutions := institutions db;
         programs := programs db;
         program_descriptions := program_descriptions db;
         program_embeddings := [] |}
  end.

(** *** Statements and sessions *)

(** The statements a stage sends, in the order it sends them. *)
Inductive stmt : Type :=
| Delete (t : table)              (* DELETE FROM t *)
| DropCreate (t : table)          (* DROP TABLE t CASCADE; CREATE TABLE t *)
| Insert (t : table) (n : nat)    (* INSERT of n rows into t *)
| Commit
| CreateIndex.

(** The database as other connections see it, its sequences, and the
    statements sent so far. *)
Record World := {
  database : Database;
  sequences : Sequences;
  trace : list stmt
}.

(** An open [Session]: the committed state and the state the open
    transaction sees. *)
Record Session := {
  committed : Database;
  working : Database;
  seqs : Sequences;
  sent : list stmt
}.

Definition send (q : stmt) (s : Session) : Session :=
  {| committed := committed s; working := working s; seqs := seqs s;
     sent := sent s ++ [q] |}.

Definition set_working (db : Database) (s : Session) : Session :=
  {| committed := committed s; working := db; seqs := seqs s;
     sent := sent s |}.

(** [session.query(T).delete()] *)
Definition delete (t : table) : M Session unit :=
  fun s =>
    let s := send (Delete t) s in
    if referenced t (working s)
    then (Raise (IntegrityError (ForeignKeyOnDelete t)), s)
    else (Ok tt, set_working (clear t (working s)) s).

(** [session.commit()] *)
Definition commit : M Session unit :=
  fun s =>
    (Ok tt, {| committed := working s; working := working s; seqs := seqs s;
               sent := sent s ++ [Commit] |}).

(** [session.add_all(records)].  The INSERT itself goes out with the flush
    of the next [commit]; every [add_all] of the stages is directly followed
    by its [commit], so the constraint checks are made here. *)
Definition add_all_disciplines (records : list Discipline) : M Session unit :=
  fun s =>
    let s := send (Insert Disciplines (List.length records)) s in
    let db := working s in
    let rows := disciplines db ++ records in
    if negb (is_unique (map dis_id rows))
    then (Raise (IntegrityError (UniqueViolation Disciplines)), s)
    else (Ok tt,
          set_working
            {| disciplines := rows; institutions := institutions db;
               programs := programs db;
               program_descriptions := program_descriptions db;
               program_embeddings := program_embeddings db |} s).

Definition add_all_institutions (records : list Institution) : M Session unit :=
  fun s =>
    let s := send (Insert Institutions (List.length records)) s in
    let db := working s in
    let rows := institutions db ++ records in
    if negb (is_unique (map ins_id rows) && is_unique_str (map ins_name rows))
    then (Raise (IntegrityError (UniqueViolation Institutions)), s)
    else (Ok tt,
          set_working
            {| disciplines := disciplines db; institutions := rows;
               programs := programs db;
               program_descriptions := program_descriptions db;
               program_embeddings := program_embeddings db |} s).

Definition add_all_programs (records : list Program) : M Session unit :=
  fun s =>
    let s := send (Insert Programs (List.length records)) s in
    let db := working s in
    let rows := programs db ++ records in
    if negb (is_unique (map prg_id rows))
    then (Raise (IntegrityError (UniqueViolation Programs)), s)
    else if negb (forallb
                    (fun p =>
                       mem (prg_discipline_id p) (map dis_id (disciplines db))
                       && mem (prg_institution_id p) (map ins_id (institutions db)))
                    records)
    then (Raise (IntegrityError (ForeignKeyOnInsert Programs)), s)
    else (Ok tt,
          set_working
            {| disciplines := disciplines db; institutions := institutions db;
               programs := rows;
               program_descriptions := program_descriptions db;
               program_embeddings := program_embeddings db |} s).

(** The serial ids [start], [start + 1], ... for [n] new rows. *)
Definition next_ids (start : Z) (n : nat) : list Z :=
  map (fun i => (start + Z.of_nat i)%Z) (seq 0 n).

(** A record built with [id=None]: the database numbers it. *)
Record NewDescription := {
  nd_program_id : Z; nd_section_name : str; nd_content : str
}.

Record NewEmbedding := {
  ne_program_id : Z; ne_chunk_index : Z; ne_chunk_text : str;
  ne_embedding : Vec
}.

Definition add_all_descriptions (records : list NewDescription)
  : M Session unit :=
  fun s =>
    let s := send (Insert ProgramDescriptions (List.length records)) s in
    let db := working s in
    let start := program_descriptions_id_seq (seqs s) in
    let s := {| committed := committed s; working := working s;
                seqs := {| program_descriptions_id_seq :=
                             (start + Z.of_nat (List.length records))%Z;
                           program_embeddings_id_seq :=
                             program_embeddings_id_seq (seqs s) |};
                sent := sent s |} in
    let numbered :=
      map (fun ir => {| dsc_id := fst ir;
                        dsc_program_id := nd_program_id (snd ir);
                        dsc_section_name := nd_section_name (snd ir);
                        dsc_content := nd_content (snd ir) |})
          (combine (next_ids start (List.length records)) records) in
    if negb (forallb (fun r => mem (nd_program_id r) (map prg_id (programs db)))
                     records)
    then (Raise (IntegrityError (ForeignKeyOnInsert ProgramDescriptions)), s)
    else if negb (is_unique (map dsc_id (program_descriptions db ++ numbered)))
    then (Raise (IntegrityError (UniqueViolation ProgramDescriptions)), s)
    else (Ok tt,
          set_working
            {| disciplines := disciplines db; institutions := institutions db;
               programs := programs db;
               program_descriptions := program_descriptions db ++ numbered;
               program_embeddings := program_embeddings db |} s).

Definition add_all_embeddings (records : list NewEmbedding) : M Session unit :=
  fun s =>
    let s := send (Insert ProgramEmbeddings (List.length records)) s in
    let db := working s in
    let start := program_embeddings_id_seq (seqs s) in
    let s := {| committed := committed s; working := working s;
                seqs := {| program_descriptions_id_seq :=
                             program_descriptions_id_seq (seqs s);
                           program_embeddings_id_seq :=
                             (start + Z.of_nat (List.length records))%Z |};
                sent := sent s |} in
    let numbered :=
      map (fun ir => {| emb_id := fst ir;
                        emb_program_id := ne_program_id (snd ir);
                        emb_chunk_index := ne_chunk_index (snd ir);
                        emb_chunk_text := ne_chunk_text (snd ir);
                        emb_embedding := ne_embedding (snd ir) |})
          (combine (next_ids start (List.length records)) records) in
    if negb (forallb (fun r => mem (ne_program_id r) (map prg_id (programs db)))
                     records)
    then (Raise (IntegrityError (ForeignKeyOnInsert ProgramEmbeddings)), s)
    else if negb (is_unique (map emb_id (program_embeddings db ++ numbered)))
    then (Raise (IntegrityError (UniqueViolation ProgramEmbeddings)), s)
    else (Ok tt,
          set_working
            {| disciplines := disciplines db; institutions := institutions db;
               programs := programs db;
               program_descriptions := program_descriptions db;
               program_embeddings := program_embeddings db ++ numbered |} s).

(** [with Session(engine) as session: body].  The session starts on the
    committed database; what is not committed when the block is left, by its
    end or by an exception, is rolled back. *)
Definition with_session (body : M Session unit) : M World unit :=
  fun w =>
    let '(r, s) := body {| committed := database w; working := database w;
                           seqs := sequences w; sent := trace w |} in
    (r, {| database := committed s; sequences := seqs s; trace := sent s |}).

(** [range(0, n, step)] and [l[i : j]]. *)
Definition range_step (n step : nat) : list nat :=
  map (fun j => (j * step)%nat) (seq 0 ((n + step - 1) / step)).

Definition slice {A} (i j : nat) (l : list A) : list A :=
  firstn (j - i) (skipn i l).

(** *** Staged frames *)

Record StagedDiscipline := { sd_id : Z; sd_name : str }.

Record StagedProgram := {
  sp_id : Z;
  sp_discipline_id : Z;
  sp_institution_id : Z;
  sp_name : str;
  sp_site : str;
  sp_stream : str;
  sp_stream_category : str;
  sp_quota : option Z;
  sp_accreditation : option str;
  sp_source_url : str
}.

Record Chunk := {
  chunk_program_id : Z;
  chunk_index : Z;
  chunk_text : str
}.

(** *** The stages of load.py *)

Definition db_disciplines (stg_disciplines : list StagedDiscipline)
  : M World unit :=
  with_session (
    (* Must delete in reverse FK order *)
    delete ProgramEmbeddings ;;;
    delete ProgramDescriptions ;;;
    delete Programs ;;;
    delete Institutions ;;;
    delete Disciplines ;;;
    commit ;;;
    let records :=
      map (fun row => {| dis_id := sd_id row; dis_name := sd_name row |})
          stg_disciplines in
    add_all_disciplines records ;;;
    commit).

Definition db_institutions (stg_institutions : list Transform.Institution)
  : M World unit :=
  with_session (
    (* Must delete in reverse FK order *)
    delete ProgramEmbeddings ;;;
    delete ProgramDescriptions ;;;
    delete Programs ;;;
    delete Institutions ;;;
    commit ;;;
    let records :=
      map (fun row => {| ins_id := Transform.inst_id row;
                         ins_name := Transform.inst_name row;
                         ins_language := Transform.inst_language row |})
          stg_institutions in
    add_all_institutions records ;;;
    commit).

Definition db_programs (stg_programs : list StagedProgram) : M World unit :=
  with_session (
    (* Must delete descriptions first (FK constraint) *)
    delete ProgramEmbeddings ;;;
    delete ProgramDescriptions ;;;
    delete Programs ;;;
    commit ;;;
    let records :=
      map (fun row => {| prg_id := sp_id row;
                         prg_discipline_id := sp_discipline_id row;
                         prg_institution_id := sp_institution_id row;
                         prg_name := sp_name row;
                         prg_site := sp_site row;
                         prg_stream := sp_stream row;
                         prg_stream_category := sp_stream_category row;
                         prg_quota := sp_quota row;
                         prg_accreditation := sp_accreditation row;
                         prg_source_url := sp_source_url row |})
          stg_programs in
    add_all_programs records ;;;
    commit).

Definition db_descriptions (stg_sections : list Transform.Section)
  : M World unit :=
  with_session (
    delete ProgramDescriptions ;;;
    commit ;;;
    let records :=
      map (fun row => {| nd_program_id := Transform.program_id row;
                         nd_section_name := Transform.section_name row;
                         nd_content := Transform.content row |})
          stg_sections in
    (* Bulk insert in batches of 1000 *)
    let batch_size := 1000%nat in
    for_each (range_step (List.length records) batch_size)
      (fun i =>
         let batch := slice i (i + batch_size) records in
         add_all_descriptions batch ;;;
         commit)).

(** *** The stage of embeddings.py *)

(** [DROP TABLE IF EXISTS program_embeddings CASCADE], [CREATE TABLE] with a
    fresh serial, and the connection's commit. *)
Definition recreate_program_embeddings : M World unit :=
  fun w =>
    (Ok tt,
     {| database := clear ProgramEmbeddings (database w);
        sequences := {| program_descriptions_id_seq :=
                          program_descriptions_id_seq (sequences w);
                        program_embeddings_id_seq := 1 |};
        trace := trace w ++ [DropCreate ProgramEmbeddings; Commit] |}).

Definition create_vector_index : M World unit :=
  fun w =>
    (Ok tt,
     {| database := database w; sequences := sequences w;
        trace := trace w ++ [CreateIndex; Commit] |}).

Definition db_embeddings (chunked_documents : list Chunk) : M World unit :=
  recreate_program_embeddings ;;;
  let texts := map chunk_text chunked_documents in
  let embeddings := encode texts in
  with_session (
    let batch_size := 500%nat in
    for_each (range_step (List.length chunked_documents) batch_size)
      (fun i =>
         let batch_chunks := slice i (i + batch_size) chunked_documents in
         let batch_embeddings := slice i (i + batch_size) embeddings in
         let records :=
           map (fun ce => {| ne_program_id := chunk_program_id (fst ce);
                             ne_chunk_index := chunk_index (fst ce);
                             ne_chunk_text := chunk_text (fst ce);
                             ne_embedding := snd ce |})
               (combine batch_chunks batch_embeddings) in
         add_all_embeddings records ;;;
         commit)) ;;;
  create_vector_index.

(** *** A pipeline run *)

Record Staged := {
  stg_disciplines : list StagedDiscipline;
  stg_institutions : list Transform.Institution;
  stg_programs : list StagedProgram;
  stg_sections : list Transform.Section;
  chunked_documents : list Chunk
}.

Inductive stage : Type :=
| DbDisciplines | DbInstitutions | DbPrograms | DbDescriptions | DbEmbeddings.

Definition run_stage (input : Staged) (a : stage) : M World unit :=
  match a with
  | DbDisciplines => db_disciplines (stg_disciplines input)
  | DbInstitutions => db_institutions (stg_institutions input)
  | DbPrograms => db_programs (stg_programs input)
  | DbDescriptions => db_descriptions (stg_sections input)
  | DbEmbeddings => db_embeddings (chunked_documents input)
  end.

(** The stages in the order of their declared dependencies; a stage that
    raises stops the run. *)
Definition load_order : list stage :=
  [DbDisciplines; DbInstitutions; DbPrograms; DbDescriptions; DbEmbeddings].

Definition run_stages (input : Staged) (stages : list stage) : M World unit :=
  for_each stages (run_stage input).

Definition full_load (input : Staged) : M World unit :=
  run_stages input load_order.

(** *** Reading the trace and the tables *)

Definition is_deletion (q : stmt) : bool :=
  match q with
  | Delete _ | DropCreate _ => true
  | _ => false
  end.

Definition is_insert (q : stmt) : bool :=
  match q with
  | Insert _ _ => true
  | _ => false
  end.

Definition deleted_table (q : stmt) : option table :=
  match q with
  | Delete t | DropCreate t => Some t
  | _ => None
  end.

(** The tables a trace deletes from, in order. *)
Definition deletions (qs : list stmt) : list table :=
  flat_map (fun q => match deleted_table q with
                     | Some t => [t]
                     | None => []
                     end) qs.

(** No insert is followed by a deletion. *)
Fixpoint deletes_first (qs : list stmt) : bool :=
  match qs with
  | [] => true
  | q :: qs' =>
      (if is_insert q then negb (existsb is_deletion qs') else true)
      && deletes_first qs'
  end.

(** Embeddings, then descriptions, then programs, then institutions, then
    disciplines. *)
Definition reverse_dependency_order : list table :=
  [ProgramEmbeddings; ProgramDescriptions; Programs; Institutions; Disciplines].

Definition table_eqb (a b : table) : bool :=
  match a, b with
  | Disciplines, Disciplines
  | Institutions, Institutions
  | Programs, Programs
  | ProgramDescriptions, ProgramDescriptions
  | ProgramEmbeddings, ProgramEmbeddings => true
  | _, _ => false
  end.

(** [sub] picks elements of [l], in the order of [l], each at most once. *)
Fixpoint subsequence (sub l : list table) : bool :=
  match l with
  | [] => match sub with [] => true | _ :: _ => false end
  | b :: l' =>
      match sub with
      | [] => true
      | a :: sub' =>
          if table_eqb a b then subsequence sub' l' else subsequence sub l'
      end
  end.

(** The tables without the generated description ids: what a reload of the
    same staged frames can be expected to reproduce. *)
Definition description_data (d : ProgramDescription) : NewDescription :=
  {| nd_program_id := dsc_program_id d;
     nd_section_name := dsc_section_name d;
     nd_content := dsc_content d |}.

Record Contents := {
  c_disciplines : list Discipline;
  c_institutions : list Institution;
  c_programs : list Program;
  c_descriptions : list NewDescription;
  c_embeddings : list ProgramEmbedding
}.

Definition contents (db : Database) : Contents :=
  {| c_disciplines := disciplines db;
     c_institutions := institutions db;
     c_programs := programs db;
     c_descriptions := map description_data (program_descriptions db);
     c_embeddings := program_embeddings db |}.

(** The state a run leaves behind, and whether it raised. *)
Definition final (r : result unit * World) : Database := database (snd r).

End WithEncoder.

Arguments emb_id {Vec}.
Arguments emb_program_id {Vec}.
Arguments emb_chunk_index {Vec}.
Arguments emb_chunk_text {Vec}.
Arguments emb_embedding {Vec}.
Arguments disciplines {Vec}.
Arguments institutions {Vec}.
Arguments programs {Vec}.
Arguments program_descriptions {Vec}.
Arguments program_embeddings {Vec}.
Arguments referenced {Vec}.
Arguments clear {Vec}.
Arguments database {Vec}.
Arguments sequences {Vec}.
Arguments trace {Vec}.
Arguments committed {Vec}.
Arguments working {Vec}.
Arguments seqs {Vec}.
Arguments sent {Vec}.
Arguments send {Vec}.
Arguments set_working {Vec}.
Arguments delete {Vec}.
Arguments commit {Vec}.
Arguments add_all_disciplines {Vec}.
Arguments add_all_institutions {Vec}.
Arguments add_all_programs {Vec}.
Arguments add_all_descriptions {Vec}.
Arguments add_all_embeddings {Vec}.
Arguments ne_program_id {Vec}.
Arguments ne_chunk_index {Vec}.
Arguments ne_chunk_text {Vec}.
Arguments ne_embedding {Vec}.
Arguments with_session {Vec}.
Arguments db_disciplines {Vec}.
Arguments db_institutions {Vec}.
Arguments db_programs {Vec}.
Arguments db_descriptions {Vec}.
Arguments recreate_program_embeddings {Vec}.
Arguments create_vector_index {Vec}.
Arguments db_embeddings {Vec}.
Arguments run_stage {Vec}.
Arguments run_stages {Vec}.
Arguments full_load {Vec}.
Arguments contents {Vec}.
Arguments c_disciplines {Vec}.
Arguments c_institutions {Vec}.
Arguments c_programs {Vec}.
Arguments c_descriptions {Vec}.
Arguments c_embeddings {Vec}.
Arguments final {Vec}.

End Load.

(** ** api/routes/semantic_search.py

    Floating-point scores are read as exact rationals. *)

Module Search.

(** [round(x, 4)]: to the nearest multiple of 1/10000, ties to even. *)
Definition round_half_even (x : Q) : Z :=
  let f := Qfloor x in
  let d := (x - inject_Z f)%Q in
  match (d ?= 1 # 2)%Q with
  | Lt => f
  | Gt => (f + 1)%Z
  | Eq => if Z.even f then f else (f + 1)%Z
  end.

Definition round4 (x : Q) : Q :=
  Qred (inject_Z (round_half_even (x * inject_Z 10000)) / inject_Z 10000).

(** *** Response schemas *)

Record Metadata := {
  md_program_name : str;
  md_site : str;
  md_discipline_name : str;
  md_institution_name : str;
  md_stream_category : str
}.

Record SemanticSearchResult := {
  program_id : Z;
  chunk_text : str;
  similarity_score : Q;
  metadata : Metadata
}.

Record SemanticSearchResponse := {
  query : str;
  results : list SemanticSearchResult;
  total : Z
}.

Record QAResponse := {
  qa_query : str;
  answer : str;
  source_chunks : list str;
  num_sources : Z
}.

(** *** The rows behind the queries *)

(** One hit of the nearest-neighbour query: a chunk joined with its program,
    discipline and institution, and its cosine distance [<=>] to the query
    vector. *)
Record Hit := {
  hit_program_id : Z;
  hit_chunk_text : str;
  hit_distance : Q;
  hit_program_name : str;
  hit_site : str;
  hit_discipline_name : str;
  hit_institution_name : str;
  hit_stream_category : str
}.

(** The SELECT list of [semantic_search], as a tuple [row[0] .. row[7]];
    [row[2]] is [1 - distance]. *)
Record Row := {
  row0 : Z; row1 : str; row2 : Q;
  row3 : str; row4 : str; row5 : str; row6 : str; row7 : str
}.

Definition select_row (h : Hit) : Row :=
  {| row0 := hit_program_id h;
     row1 := hit_chunk_text h;
     row2 := (1 - hit_distance h)%Q;
     row3 := hit_program_name h;
     row4 := hit_site h;
     row5 := hit_discipline_name h;
     row6 := hit_institution_name h;
     row7 := hit_stream_category h |}.

(** The result built from one row. *)
Definition result_of_row (row : Row) : SemanticSearchResult :=
  {| program_id := row0 row;
     chunk_text := row1 row;
     similarity_score := round4 (row2 row);
     metadata := {| md_program_name := row3 row;
                    md_site := row4 row;
                    md_discipline_name := row5 row;
                    md_institution_name := row6 row;
                    md_stream_category := row7 row |} |}.

(** The dict [seen]: keys in insertion order. *)
Definition seen_dict := list (Z * SemanticSearchResult).

Definition has_key (pid : Z) (seen : seen_dict) : bool :=
  existsb (fun kv => Z.eqb pid (fst kv)) seen.

(** One turn of the loop [for row in results]. *)
Definition dedup_step (seen : seen_dict) (row : Row) : seen_dict :=
  let pid := row0 row in
  if negb (has_key pid seen) then seen ++ [(pid, result_of_row row)]
  else seen.

(** Deduplicate by program_id; [list(seen.values())]. *)
Definition deduplicate (rows : list Row) : list SemanticSearchResult :=
  map snd (fold_left dedup_step rows []).

(** The prompt template, around [{context}] and [{question}]. *)
Definition RAG_PROMPT_format (context question : str) : str :=
  lit "You are a helpful assistant for the Canadian Resident Matching Service (CaRMS).
Use the following context from residency program descriptions to answer the question.
If you don't know the answer based on the context, say so — do not make up information.
Be specific and reference program names, universities, and locations when relevant.

Context:
" ++ context ++ lit "

Question: " ++ question ++ lit "

Answer:".

(** [sep.join(parts)] *)
Fixpoint join (sep : str) (parts : list str) : str :=
  match parts with
  | [] => []
  | [p] => p
  | p :: parts' => p ++ sep ++ join sep parts'
  end.

Section WithCollaborators.

(** The embedding model, the database behind the session, and the LLM. *)
Variable Vec : Type.
Variable embed_query : str -> Vec.

(** The nearest-neighbour query of [semantic_search]: the hits for a query
    vector, a limit and an optional category, in the order the database
    returns them. *)
Variable nearest_hits : Vec -> Z -> option str -> list Hit.

(** The query of [question_answer]: rows [(chunk_text, program_name,
    institution_name)]. *)
Variable nearest_chunks : Vec -> Z -> list (str * str * str).

(** [get_llm().invoke(prompt)]: the completion, or the text of the exception
    it raised. *)
Variable llm_invoke : str -> str + str.

(** [if stream_category:] the WHERE clause is added for a non-empty
    category only. *)
Definition category_filter (stream_category : option str) : option str :=
  match stream_category with
  | Some (_ :: _ as c) => Some c
  | _ => None
  end.

Definition semantic_search (q : str) (top_k : Z) (stream_category : option str)
  : SemanticSearchResponse :=
  let query_vector := embed_query q in
  let where_clause := category_filter stream_category in
  let results :=
    map select_row (nearest_hits query_vector top_k where_clause) in
  let unique_results := deduplicate results in
  {| query := q;
     results := unique_results;
     total := Z.of_nat (List.length unique_results) |}.

(** The calls [question_answer] makes on its collaborators. *)
Inductive call : Type :=
| EmbedQuery (q : str)
| SqlQuery (top_k : Z)
| LlmInvoke (prompt : str).

Definition record_call (c : call) : M (list call) unit :=
  fun calls => (Ok tt, calls ++ [c]).

Definition source_line (row : str * str * str) : str :=
  let '(chunk, program_name, institution_name) := row in
  lit "[" ++ program_name ++ lit " — " ++ institution_name ++ lit "]: "
  ++ firstn 200 chunk ++ lit "...".

Definition context_part (row : str * str * str) : str :=
  let '(chunk, program_name, institution_name) := row in
  lit "Program: " ++ program_name ++ lit " (" ++ institution_name ++ lit ")"
  ++ [newline] ++ chunk.

Definition question_answer (q : str) (top_k : Z) : M (list call) QAResponse :=
  (* Step 1: retrieve relevant chunks *)
  record_call (EmbedQuery q) ;;;
  let query_vector := embed_query q in
  record_call (SqlQuery top_k) ;;;
  let results := nearest_chunks query_vector top_k in
  match results with
  | [] => raise (HTTPException 404 (lit "No relevant program data found."))
  | _ :: _ =>
      (* Step 2: build context from retrieved chunks *)
      let source_chunks := map source_line results in
      let context_parts := map context_part results in
      let context :=
        join ([newline; newline] ++ lit "---" ++ [newline; newline])
             context_parts in
      (* Step 3: generate the answer *)
      answer <-
        try_except
          (let prompt := RAG_PROMPT_format context q in
           record_call (LlmInvoke prompt) ;;;
           match llm_invoke prompt with
           | inl text => ret text
           | inr error_msg => raise (Exception error_msg)
           end)
          (fun e =>
             let error_msg := exn_str e in
             if contains (lit "Connection") error_msg
                || contains (lit "refused") error_msg
             then raise (HTTPException 503
                    (lit "Ollama is not running. Start it with: 1) Install: https://ollama.ai  2) Pull model: ollama pull mistral  3) Serve: ollama serve"))
             else raise (HTTPException 500 (lit "LLM error: " ++ error_msg))) ;;
      ret {| qa_query := q;
             answer := strip answer;
             source_chunks := source_chunks;
             num_sources := Z.of_nat (List.length source_chunks) |}
  end.

(** Whether the generative collaborator was called. *)
Definition invoked_llm (calls : list call) : bool :=
  existsb (fun c => match c with LlmInvoke _ => true | _ => false end) calls.

End WithCollaborators.

End Search.

(** ** How the statements read a text *)

Module Reading.

Import Transform.



















(** The number of non-null cells under the section columns. *)
Definition is_some {A} (o : option A) : bool :=
  match o with Some _ => true | None => false end.

Definition non_empty_cells (df : SectionsFrame) : nat :=
  list_sum
    (map (fun c =>
            List.length
              (filter (fun row => is_some (cell (columns df) row c)) (rows df)))
         SECTION_COLUMNS).

(** [m] is the least [school_id] among the rows named [name]. *)
Definition least_school_id (raw : list RawProgram) (name : str) (m : Z) : Prop :=
  (exists r, In r raw /\ school_name r = name /\ school_id r = m)
  /\ forall r, In r raw -> school_name r = name -> (m <= school_id r)%Z.

Definition distinct_school_names (raw : list RawProgram) : list str :=
  nodup (list_eq_dec ascii_dec) (map school_name raw).

(** A program-master table naming eighteen schools, one of them under two
    source ids. *)
Definition master_row (id : Z) (name : str) : RawProgram :=
  {| program_stream_id := 27000 + id; discipline_id := 1;
     school_id := id; school_name := name;
     program_name := lit "Family Medicine"; program_site := lit "Main";
     program_stream := lit "CMG Stream for CMG"; program_url := [] |}.

Definition sample_master : list RawProgram :=
  [ master_row 12 (lit "McGill University");
    master_row 3 (lit "Université Laval");
    master_row 1 (lit "Memorial University of Newfoundland");
    master_row 2 (lit "Dalhousie University");
    master_row 4 (lit "Université de Sherbrooke");
    master_row 5 (lit "Université de Montréal");
    master_row 7 (lit "University of Ottawa");
    master_row 8 (lit "Queen's University");
    master_row 9 (lit "NOSM University");
    master_row 10 (lit "University of Toronto");
    master_row 11 (lit "McMaster University");
    master_row 13 (lit "Western University");
    master_row 14 (lit "University of Manitoba");
    master_row 15 (lit "University of Saskatchewan");
    master_row 16 (lit "University of Alberta");
    master_row 17 (lit "University of Calgary");
    master_row 18 (lit "University of British Columbia");
    master_row 19 (lit "Toronto Metropolitan University");
    master_row 6 (lit "McGill University") ].

(** Raw hits in ascending order of cosine distance. *)
Definition ascending (hits : list Search.Hit) : Prop :=
  StronglySorted
    (fun a b => (Search.hit_distance a <= Search.hit_distance b)%Q) hits.

(** The hits of the example: programs 5, 5 and 7 at distances 0.1, 0.3
    and 0.2. *)
Definition sample_hit (pid : Z) (d : Q) (text : str) : Search.Hit :=
  {| Search.hit_program_id := pid;
     Search.hit_chunk_text := text;
     Search.hit_distance := d;
     Search.hit_program_name := lit "Family Medicine";
     Search.hit_site := lit "Main";
     Search.hit_discipline_name := lit "Family Medicine";
     Search.hit_institution_name := lit "McGill University";
     Search.hit_stream_category := lit "CMG" |}.

Definition sample_hits : list Search.Hit :=
  [ sample_hit 5 (1 # 10) (lit "rural rotations");
    sample_hit 5 (3 # 10) (lit "call schedule");
    sample_hit 7 (2 # 10) (lit "rural electives") ].

(** The same hits as the database orders them. *)
Definition sorted_hits : list Search.Hit :=
  [ sample_hit 5 (1 # 10) (lit "rural rotations");
    sample_hit 7 (2 # 10) (lit "rural electives");
    sample_hit 5 (3 # 10) (lit "call schedule") ].

Definition sample_result (pid : Z) (score : Q) (text : str)
  : Search.SemanticSearchResult :=
  {| Search.program_id := pid;
     Search.chunk_text := text;
     Search.similarity_score := score;
     Search.metadata :=
       {| Search.md_program_name := lit "Family Medicine";
          Search.md_site := lit "Main";
          Search.md_discipline_name := lit "Family Medicine";
          Search.md_institution_name := lit "McGill University";
          Search.md_stream_category := lit "CMG" |} |}.

(** The tables each stage deletes from, in the order it does. *)
Definition deleted_by (a : Load.stage) : list table :=
  match a with
  | Load.DbDisciplines =>
      [ProgramEmbeddings; ProgramDescriptions; Programs; Institutions;
       Disciplines]
  | Load.DbInstitutions =>
      [ProgramEmbeddings; ProgramDescriptions; Programs; Institutions]
  | Load.DbPrograms => [ProgramEmbeddings; ProgramDescriptions; Programs]
  | Load.DbDescriptions => [ProgramDescriptions]
  | Load.DbEmbeddings => [ProgramEmbeddings]
  end.

(** The place of a table in an order. *)
Fixpoint position (t : table) (l : list table) : nat :=
  match l with
  | [] => 0
  | t' :: l' => if Load.table_eqb t t' then 0 else S (position t l')
  end.

End Reading.

(** ** What the proofs keep track of *)

Module Invariants.

Import Load.


(** What the groups hold once [seen] has been read. *)
Definition groups_of (seen : list Transform.RawProgram) (g : list (str * Z))
  : Prop :=
  NoDup (map fst g)
  /\ (forall name, In name (map fst g)
                   <-> In name (map Transform.school_name seen))
  /\ (forall name m, In (name, m) g -> Reading.least_school_id seen name m).

(** What [seen] holds once the rows [pre] have been read: one entry per
    program id of [pre], made from the first row of that program. *)
Definition seen_of (pre : list Search.Row) (seen : Search.seen_dict) : Prop :=
  NoDup (map fst seen)
  /\ (forall pid, In pid (map fst seen) <-> In pid (map Search.row0 pre))
  /\ (forall pid r, In (pid, r) seen ->
        exists before row after,
          pre = before ++ row :: after
          /\ Search.row0 row = pid /\ r = Search.result_of_row row
          /\ ~ In pid (map Search.row0 before)).

(** The ids [ids] are distinct and all handed out before [next]. *)
Definition fresh_below (ids : list Z) (next : Z) : Prop :=
  NoDup ids /\ Forall (fun i => (i < next)%Z) ids.

Section Sessions.

Context {Vec : Type}.

Definition description_ids (db : Database Vec) : list Z :=
  map dsc_id (program_descriptions db).

Definition embedding_ids (db : Database Vec) : list Z :=
  map emb_id (program_embeddings db).

(** The description ids of both states of a session come from its
    sequence. *)
Definition tidy (s : Session Vec) : Prop :=
  fresh_below (description_ids (committed s))
              (program_descriptions_id_seq (seqs s))
  /\ fresh_below (description_ids (working s))
                 (program_descriptions_id_seq (seqs s)).

(** The same for the embedding ids. *)
Definition tidy_e (s : Session Vec) : Prop :=
  tidy s
  /\ fresh_below (embedding_ids (committed s))
                 (program_embeddings_id_seq (seqs s))
  /\ fresh_below (embedding_ids (working s))
                 (program_embeddings_id_seq (seqs s)).

(** Two sessions that hold the same rows, description ids apart. *)
Definition same (s s' : Session Vec) : Prop :=
  contents (committed s) = contents (committed s')
  /\ contents (working s) = contents (working s').

(** ... and will number the next embedding alike. *)
Definition same_e (s s' : Session Vec) : Prop :=
  same s s'
  /\ program_embeddings_id_seq (seqs s) = program_embeddings_id_seq (seqs s').

(** [c] keeps the invariant [I], and from two states in [I] related by
    [R] it ends the same way, in states related by [R]. *)
Definition respects {S A : Type} (I : S -> Prop) (R : S -> S -> Prop)
  (c : M S A) : Prop :=
  (forall s, I s -> I (snd (c s)))
  /\ (forall s s', I s -> I s' -> R s s' ->
        fst (c s) = fst (c s') /\ R (snd (c s)) (snd (c s'))).

(** The same for the database between sessions. *)
Definition tidy_w (w : World Vec) : Prop :=
  fresh_below (description_ids (database w))
              (program_descriptions_id_seq (sequences w)).

Definition same_w (w w' : World Vec) : Prop :=
  contents (database w) = contents (database w').

Definition tidy_we (w : World Vec) : Prop :=
  tidy_w w
  /\ fresh_below (embedding_ids (database w))
                 (program_embeddings_id_seq (sequences w)).

Definition same_we (w w' : World Vec) : Prop :=
  same_w w w'
  /\ program_embeddings_id_seq (sequences w)
     = program_embeddings_id_seq (sequences w').

(** The session a stage opens on [w]. *)
Definition open_session (w : World Vec) : Session Vec :=
  {| committed := database w; working := database w;
     seqs := sequences w; sent := trace w |}.

(** [quiet c]: [c] only adds to what was sent, adds no deletion, and is
    never refused for a foreign key on delete. *)
Definition quiet (c : M (Session Vec) unit) : Prop :=
  forall s,
    (exists qs, sent (snd (c s)) = sent s ++ qs
                /\ forallb (fun q => negb (is_deletion q)) qs = true)
    /\ forall t, fst (c s) <> Raise (IntegrityError (ForeignKeyOnDelete t)).

End Sessions.

(** "A second load leaves the tables identical to the first", generated
    ids included. *)
Definition reload_is_identical : Prop :=
  forall (Vec : Type) (encode : list str -> list Vec) (input : Staged)
         (w : World Vec),
    final (full_load encode input (snd (full_load encode input w)))
    = final (full_load encode input w).

(** A small staged input: one discipline, one institution, one program with
    two sections and one chunk; the encoder gives every text the vector
    [[1; 0]]. *)
Definition sample_staged : Staged :=
  {| stg_disciplines := [ {| sd_id := 1; sd_name := lit "Anesthesiology" |} ];
     stg_institutions :=
       [ {| Transform.inst_id := 6;
            Transform.inst_name := lit "McGill University";
            Transform.inst_language := lit "en" |} ];
     stg_programs :=
       [ {| sp_id := 27447; sp_discipline_id := 1; sp_institution_id := 6;
            sp_name := lit "McGill University - Anesthesiology - Montreal";
            sp_site := lit "Montreal";
            sp_stream := lit "CMG Stream for CMG";
            sp_stream_category := lit "CMG";
            sp_quota := Some 12%Z;
            sp_accreditation := Some (lit "Fully accredited");
            sp_source_url := lit "https://example.org/27447" |} ];
     stg_sections :=
       [ {| Transform.program_id := 27447;
            Transform.section_name := lit "program_name";
            Transform.content := lit "Anesthesiology" |};
         {| Transform.program_id := 27447;
            Transform.section_name := lit "interviews";
            Transform.content := lit "Virtual" |} ];
     chunked_documents :=
       [ {| chunk_program_id := 27447; chunk_index := 0;
            chunk_text := lit "Approximate Quota" |} ] |}.

Definition sample_encode (texts : list str) : list (list Z) :=
  map (fun _ => [1%Z; 0%Z]) texts.

Definition empty_world : World (list Z) :=
  {| database := {| disciplines := []; institutions := []; programs := [];
                    program_descriptions := []; program_embeddings := [] |};
     sequences := {| program_descriptions_id_seq := 1;
                     program_embeddings_id_seq := 1 |};
     trace := [] |}.

End Invariants.

(** ** Further vocabulary *)

Module More.

Import Str Py Search.

(** [sub] is [l] with some elements left out, the order kept. *)
Inductive sublist {A : Type} : list A -> list A -> Prop :=
| sublist_nil : sublist [] []
| sublist_skip a sub l : sublist sub l -> sublist sub (a :: l)
| sublist_keep a sub l : sublist sub l -> sublist (a :: sub) (a :: l).

(** [part] stands somewhere in [x], character for character. *)
Definition infix (part x : str) : Prop :=
  exists pre post, x = pre ++ part ++ post.

(** The prompt [question_answer] builds from the rows it retrieved. *)
Definition prompt_of (Vec : Type) (embed_query : str -> Vec)
    (nearest_chunks : Vec -> Z -> list (str * str * str))
    (q : str) (top_k : Z) : str :=
  RAG_PROMPT_format
    (join ([newline; newline] ++ lit "---" ++ [newline; newline])
          (map context_part (nearest_chunks (embed_query q) top_k)))
    q.

(** Two chunks of one program. *)
Definition sample_chunks : list (str * str * str) :=
  [(lit "Rural rotations in year one.", lit "Family Medicine",
    lit "Dalhousie University");
   (lit "Research block in year two.", lit "Family Medicine",
    lit "Dalhousie University")].

(** *** The rows a load stage builds *)

Section Rows.

Context {Vec : Type}.




Definition description_of (row : Transform.Section) : Load.NewDescription :=
  {| Load.nd_program_id := Transform.program_id row;
     Load.nd_section_name := Transform.section_name row;
     Load.nd_content := Transform.content row |}.

Definition embedding_of (ce : Load.Chunk * Vec) : Load.NewEmbedding Vec :=
  {| Load.ne_program_id := Load.chunk_program_id (fst ce);
     Load.ne_chunk_index := Load.chunk_index (fst ce);
     Load.ne_chunk_text := Load.chunk_text (fst ce);
     Load.ne_embedding := snd ce |}.

(** The rows the database makes of new records, numbered from [start]. *)
Definition number_descriptions (start : Z)
    (records : list Load.NewDescription) : list Load.ProgramDescription :=
  map (fun ir => {| Load.dsc_id := fst ir;
                    Load.dsc_program_id := Load.nd_program_id (snd ir);
                    Load.dsc_section_name := Load.nd_section_name (snd ir);
                    Load.dsc_content := Load.nd_content (snd ir) |})
      (combine (Load.next_ids start (List.length records)) records).

Definition number_embeddings (start : Z)
    (records : list (Load.NewEmbedding Vec))
  : list (Load.ProgramEmbedding Vec) :=
  map (fun ir => {| Load.emb_id := fst ir;
                    Load.emb_program_id := Load.ne_program_id (snd ir);
                    Load.emb_chunk_index := Load.ne_chunk_index (snd ir);
                    Load.emb_chunk_text := Load.ne_chunk_text (snd ir);
                    Load.emb_embedding := Load.ne_embedding (snd ir) |})
      (combine (Load.next_ids start (List.length records)) records).

(** [pid] is the id of a row of the programs table. *)
Definition known_program (db : Load.Database Vec) (pid : Z) : bool :=
  Load.mem pid (map Load.prg_id (Load.programs db)).


(** [db] with another descriptions table, or another embeddings table. *)
Definition set_descriptions (db : Load.Database Vec)
    (rows : list Load.ProgramDescription) : Load.Database Vec :=
  {| Load.disciplines := Load.disciplines db;
     Load.institutions := Load.institutions db;
     Load.programs := Load.programs db;
     Load.program_descriptions := rows;
     Load.program_embeddings := Load.program_embeddings db |}.

Definition set_embeddings (db : Load.Database Vec)
    (rows : list (Load.ProgramEmbedding Vec)) : Load.Database Vec :=
  {| Load.disciplines := Load.disciplines db;
     Load.institutions := Load.institutions db;
     Load.programs := Load.programs db;
     Load.program_descriptions := Load.program_descriptions db;
     Load.program_embeddings := rows |}.



End Rows.

(** The position of the first element that satisfies [p]. *)
Fixpoint first_index {A : Type} (p : A -> bool) (l : list A) : option nat :=
  match l with
  | [] => None
  | a :: l' => if p a then Some 0%nat else option_map S (first_index p l')
  end.

(** The first [k] batches of [b] elements of [l]. *)
Fixpoint batches {A : Type} (k b : nat) (l : list A) : list (list A) :=
  match k with
  | O => []
  | S k' => firstn b l :: batches k' b (skipn b l)
  end.

End More.

(** ** The rest of the transform and embedding assets *)

(** *** The built-ins they call *)

Module Builtins.

Import Str Py.

(** [x.split(sep)] for a separator of one character. *)
Fixpoint split (sep : ascii) (x : str) : list str :=
  match x with
  | [] => [[]]
  | c :: x' =>
      if Ascii.eqb c sep then [] :: split sep x'
      else match split sep x' with
           | part :: parts => (c :: part) :: parts
           | [] => [[c]]
           end
  end.

(** [l[i]]; out of range it raises IndexError. *)
Definition getitem {A : Type} (l : list A) (i : nat) : result A :=
  match nth_error l i with
  | Some a => Ok a
  | None => Raise (Exception (lit "list index out of range"))
  end.

Definition backslash : ascii := ascii_of_N 92.
Definition double_quote : ascii := ascii_of_N 34.
Definition single_quote : ascii := ascii_of_N 39.

Definition hex_digit (n : N) : ascii :=
  if (n <? 10)%N then ascii_of_N (48 + n) else ascii_of_N (87 + n).

(** [repr(x)] of a string, on the ASCII range: the quote is the single one
    unless the text holds a single and no double quote; backslash, the
    chosen quote, tab, line feed and carriage return are escaped, other
    control characters are written [\xNN].  (Bytes above 127 are copied;
    Python also escapes the characters outside ASCII that are not
    printable.) *)
Definition repr_quote (x : str) : ascii :=
  if existsb (Ascii.eqb single_quote) x
     && negb (existsb (Ascii.eqb double_quote) x)
  then double_quote else single_quote.

Definition repr_char (quote c : ascii) : str :=
  if Ascii.eqb c backslash then [backslash; backslash]
  else if Ascii.eqb c quote then [backslash; quote]
  else if (code c =? 9)%N then [backslash; "t"%char]
  else if (code c =? 10)%N then [backslash; "n"%char]
  else if (code c =? 13)%N then [backslash; "r"%char]
  else if (code c <? 32)%N || (code c =? 127)%N
       then [backslash; "x"%char;
             hex_digit (code c / 16); hex_digit (code c mod 16)]
  else [c].

Definition repr (x : str) : str :=
  let quote := repr_quote x in
  [quote] ++ flat_map (repr_char quote) x ++ [quote].

(** The whitespace [int] skips around a number. *)
Definition is_int_space (c : ascii) : bool :=
  ((9 <=? code c)%N && (code c <=? 13)%N) || (code c =? 32)%N.

(** The run of digits and single underscores at the head of [x]: its
    digits and what follows it, unless two underscores meet or the run ends
    in one. *)
Inductive scanned : Type :=
| BadUnderscore
| Digits (digits rest : str).

Fixpoint scan_digits (x : str) (prev_underscore : bool) (digits : str)
  : scanned :=
  match x with
  | c :: x' =>
      if is_digit c then scan_digits x' false (digits ++ [c])
      else if Ascii.eqb c "_" then
        if prev_underscore then BadUnderscore
        else scan_digits x' true digits
      else if prev_underscore then BadUnderscore
      else Digits digits x
  | [] => if prev_underscore then BadUnderscore else Digits digits []
  end.

(** [int(x)] for any string: whitespace, an optional sign, decimal digits
    with single underscores between them, whitespace.  The limit on the
    number of digits is checked when the run of digits has been read,
    before what follows it is looked at.  (Python also takes the decimal
    digits and the whitespace outside ASCII.) *)
Definition int (x : str) : result Z :=
  let invalid : result Z :=
    Raise (ValueError
             (lit "invalid literal for int() with base 10: " ++ repr x)) in
  let s := lstrip_by is_int_space x in
  let '(negative, s) :=
    match s with
    | c :: s' =>
        if Ascii.eqb c "+" then (false, s')
        else if Ascii.eqb c "-" then (true, s')
        else (false, s)
    | [] => (false, s)
    end in
  if startswith (lit "_") s then invalid
  else
    match scan_digits s false [] with
    | BadUnderscore => invalid
    | Digits digits rest =>
        if Nat.ltb int_max_str_digits (List.length digits)
        then Raise (ValueError
                      (lit "Exceeds the limit (4300 digits) for integer string conversion: value has "
                       ++ str_of_Z (Z.of_nat (List.length digits))
                       ++ lit " digits; use sys.set_int_max_str_digits() to increase the limit"))
        else
          match digits with
          | [] => invalid
          | _ :: _ =>
              if forallb is_int_space rest
              then Ok (if negative then (- int_of_digits digits)%Z
                       else int_of_digits digits)
              else invalid
          end
    end.

(** A dict as the list of its items in insertion order. *)
Section Dict.

Context {K V : Type}.
Variable key_eqb : K -> K -> bool.

(** [d[k] = v] *)
Fixpoint dict_set (k : K) (v : V) (d : list (K * V)) : list (K * V) :=
  match d with
  | [] => [(k, v)]
  | (k', v') :: d' =>
      if key_eqb k k' then (k', v) :: d'
      else (k', v') :: dict_set k v d'
  end.

(** [d.get(k)] *)
Definition dict_get (k : K) (d : list (K * V)) : option V :=
  option_map snd (find (fun kv => key_eqb k (fst kv)) d).

End Dict.

(** [enumerate(l)] *)
Definition enumerate {A : Type} (l : list A) : list (Z * A) :=
  combine (map Z.of_nat (seq 0 (List.length l))) l.

End Builtins.

(** *** transform.py and embeddings.py, the other assets *)

Module Assets.

Import Str Py Transform Builtins.

(** The columns of the discipline table; a null cell is [None]. *)
Record RawDiscipline := {
  raw_discipline_id : option Z;
  raw_discipline : option str
}.

(** [col.notna()] on one cell, and the values of a column without its
    nulls. *)
Definition notna {A : Type} (x : option A) : bool :=
  match x with Some _ => true | None => false end.

Definition present {A : Type} (col : list (option A)) : list A :=
  flat_map (fun x => match x with Some a => [a] | None => [] end) col.

Definition stg_disciplines (raw_disciplines : list RawDiscipline)
  : result (list Load.StagedDiscipline) :=
  let id := map raw_discipline_id raw_disciplines in
  let name := map raw_discipline raw_disciplines in
  if negb (forallb notna id) then
    Raise (AssertionError (lit "Found null discipline_id"))
  else if negb (is_unique (present id)) then
    Raise (AssertionError (lit "Found duplicate discipline_id"))
  else if negb (forallb notna name) then
    Raise (AssertionError (lit "Found null discipline name"))
  else
    Ok (map (fun row => {| Load.sd_id := fst row; Load.sd_name := snd row |})
            (combine (present id) (present name))).

(** One entry of the markdown file: [entry["id"]], such as "1503|27447",
    and [entry["page_content"]]. *)
Record MarkdownEntry := {
  entry_id : str;
  page_content : str
}.

(** [int(entry["id"].split("|")[1])] *)
Definition entry_program_id (entry : MarkdownEntry) : result Z :=
  match getitem (split "|" (entry_id entry)) 1 with
  | Ok part => Builtins.int part
  | Raise e => Raise e
  end.

(** The loop that fills [markdown_lookup]. *)
Fixpoint fill_markdown_lookup (raw_markdown : list MarkdownEntry)
    (markdown_lookup : list (Z * str)) : result (list (Z * str)) :=
  match raw_markdown with
  | [] => Ok markdown_lookup
  | entry :: rest =>
      match entry_program_id entry with
      | Ok program_stream_id =>
          fill_markdown_lookup rest
            (dict_set Z.eqb program_stream_id (page_content entry)
                      markdown_lookup)
      | Raise e => Raise e
      end
  end.

(** [dict(zip(stg_institutions["name"], stg_institutions["id"]))] *)
Definition inst_map_of (stg_institutions : list Institution)
  : list (str * Z) :=
  fold_left (fun d i => dict_set Str.eqb (inst_name i) (inst_id i) d)
            stg_institutions [].

(** [markdown_lookup.get(pid, "")] *)
Definition markdown_of (markdown_lookup : list (Z * str)) (pid : Z) : str :=
  match dict_get Z.eqb pid markdown_lookup with
  | Some text => text
  | None => []
  end.

(** [col.apply(f)] for an [f] that may raise: row by row, up to the first
    that raises. *)
Fixpoint apply {A B : Type} (f : A -> result B) (col : list A)
  : result (list B) :=
  match col with
  | [] => Ok []
  | a :: col' =>
      match f a with
      | Ok b =>
          match apply f col' with
          | Ok bs => Ok (b :: bs)
          | Raise e => Raise e
          end
      | Raise e => Raise e
      end
  end.

Definition stg_programs (raw_programs : list RawProgram)
    (raw_markdown : list MarkdownEntry) (stg_institutions : list Institution)
  : result (list Load.StagedProgram) :=
  match fill_markdown_lookup raw_markdown [] with
  | Raise e => Raise e
  | Ok markdown_lookup =>
      let inst_map := inst_map_of stg_institutions in
      let institution_id :=
        map (fun r => dict_get Str.eqb (school_name r) inst_map)
            raw_programs in
      if negb (forallb notna institution_id) then
        Raise (AssertionError (lit "Some schools didn't map to institutions"))
      else
        match apply (fun r => extract_quota
                                (markdown_of markdown_lookup
                                             (program_stream_id r)))
                    raw_programs with
        | Raise e => Raise e
        | Ok quota =>
            let result :=
              map (fun row =>
                     let '(r, inst, q) := row in
                     {| Load.sp_id := program_stream_id r;
                        Load.sp_discipline_id := discipline_id r;
                        Load.sp_institution_id := inst;
                        Load.sp_name := program_name r;
                        Load.sp_site := program_site r;
                        Load.sp_stream := program_stream r;
                        Load.sp_stream_category :=
                          derive_stream_category (program_stream r);
                        Load.sp_quota := q;
                        Load.sp_accreditation :=
                          extract_accreditation
                            (markdown_of markdown_lookup
                                         (program_stream_id r));
                        Load.sp_source_url := program_url r |})
                  (combine (combine raw_programs (present institution_id))
                           quota) in
            if negb (Nat.eqb (List.length result) 815) then
              Raise (AssertionError
                       (lit "Expected 815 programs, got "
                        ++ str_of_Z (Z.of_nat (List.length result))))
            else if negb (is_unique (map Load.sp_id result)) then
              Raise (AssertionError (lit "Duplicate program IDs"))
            else Ok result
        end
  end.

Section WithSplitter.

(** [RecursiveCharacterTextSplitter(chunk_size=1000, chunk_overlap=200,
    ...).split_text] *)
Variable split_text : str -> list str.

(** The loop over [raw_markdown], from the chunks gathered so far. *)
Fixpoint gather_chunks (raw_markdown : list MarkdownEntry)
    (all_chunks : list Load.Chunk) : result (list Load.Chunk) :=
  match raw_markdown with
  | [] => Ok all_chunks
  | entry :: rest =>
      match entry_program_id entry with
      | Ok program_id =>
          let content := page_content entry in
          let chunks := split_text content in
          gather_chunks rest
            (all_chunks
             ++ map (fun ic => {| Load.chunk_program_id := program_id;
                                  Load.chunk_index := fst ic;
                                  Load.chunk_text := snd ic |})
                    (enumerate chunks))
      | Raise e => Raise e
      end
  end.

Definition chunked_documents (raw_markdown : list MarkdownEntry)
  : result (list Load.Chunk) :=
  gather_chunks raw_markdown [].

End WithSplitter.

(** *** Reading their results *)

(** The chunks of one document, numbered from 0. *)
Definition document_chunks (split_text : str -> list str)
    (doc : Z * MarkdownEntry) : list Load.Chunk :=
  map (fun ic => {| Load.chunk_program_id := fst doc;
                    Load.chunk_index := fst ic;
                    Load.chunk_text := snd ic |})
      (enumerate (split_text (page_content (snd doc)))).

(** What identifies a chunk: its program and its index. *)
Definition chunk_key (c : Load.Chunk) : Z * Z :=
  (Load.chunk_program_id c, Load.chunk_index c).

Definition bar : ascii := "|"%char.


(** Two documents of the markdown file, and a splitter that cuts a text
    into its lines. *)
Definition sample_markdown : list MarkdownEntry :=
  [ {| entry_id := lit "1503|27447";
       page_content := lit "Approximate Quota:
12
Accreditation status : Accredited" |};
    {| entry_id := lit "1503|27448"; page_content := lit "Rural training" |} ].

Definition sample_split_text (x : str) : list str := split newline x.

(** [markdown_lookup] for these two documents. *)
Definition sample_lookup : list (Z * str) :=
  map (fun entry =>
         (match entry_program_id entry with Ok pid => pid | Raise _ => 0%Z end,
          page_content entry))
      sample_markdown.

End Assets.

(** * Properties *)

(** ** Strings *)

Module StrFacts.









End StrFacts.


(** ** The matcher against the meaning of patterns *)

Module RegexFacts.

Import StrFacts.

Section Soundness.

Variable ic : bool.
Variable R : Type.

Lemma star_greedy_sound p x (k : str -> option R) v :
  star_greedy R p x k = Some v ->
  exists run rest, x = run ++ rest /\ forallb p run = true /\ k rest = Some v.
Proof.
  induction x as [|c x IH]; simpl; intro H.
  - exists [], []. auto.
  - destruct (p c) eqn:Hc.
    + destruct (star_greedy R p x k) eqn:E.
      * injection H as ->.
        destruct (IH eq_refl) as (run & rest & -> & Hr & Hk).
        exists (c :: run), rest. simpl. rewrite Hc. auto.
      * exists [], (c :: x). auto.
    + exists [], (c :: x). auto.
Qed.

Lemma plus_lazy_sound p x (k : str -> option R) v :
  plus_lazy R p x k = Some v ->
  exists run rest,
    x = run ++ rest /\ forallb p run = true /\ run <> [] /\ k rest = Some v.
Proof.
  induction x as [|c x IH]; simpl; intro H; [discriminate|].
  destruct (p c) eqn:Hc; [|discriminate].
  destruct (k x) eqn:E.
  - injection H as ->. exists [c], x. simpl. rewrite Hc.
    repeat split; auto. discriminate.
  - destruct (IH H) as (run & rest & -> & Hr & _ & Hk).
    exists (c :: run), rest. simpl. rewrite Hc.
    repeat split; auto. discriminate.
Qed.

Lemma matches_suffix r cap x cap' x' :
  matches ic r cap x cap' x' -> exists pre, x = pre ++ x'.
Proof.
  induction 1.
  - now exists [a].
  - now exists [a].
  - destruct IHmatches1 as [p1 ->], IHmatches2 as [p2 ->].
    exists (p1 ++ p2). now rewrite app_assoc.
  - assumption.
  - assumption.
  - assumption.
  - now exists [].
  - now exists run.
  - now exists run.
  - now exists got.
  - now exists [].
  - now exists [].
Qed.

Lemma firstn_prefix (pre rest : str) :
  firstn (List.length (pre ++ rest) - List.length rest) (pre ++ rest) = pre.
Proof.
  rewrite length_app, Nat.add_sub.
  rewrite firstn_app, Nat.sub_diag, firstn_all. simpl. apply app_nil_r.
Qed.

(** Whatever the matcher finds is a match. *)
Lemma bt_sound r : forall cap x (k : option str -> str -> option R) v,
  bt ic R r cap x k = Some v ->
  exists cap' x', matches ic r cap x cap' x' /\ k cap' x' = Some v.
Proof.
  induction r; intros cap x k v H; simpl in H.
  - destruct x as [|a x]; [discriminate|].
    destruct (chr_match ic c a) eqn:E; [|discriminate].
    exists cap, x. split; [now constructor|assumption].
  - destruct x as [|a x]; [discriminate|].
    destruct (p a) eqn:E; [|discriminate].
    exists cap, x. split; [now constructor|assumption].
  - apply IHr1 in H as (cap1 & x1 & M1 & H).
    apply IHr2 in H as (cap2 & x2 & M2 & H).
    exists cap2, x2. split; [econstructor; eassumption|assumption].
  - destruct (bt ic R r1 cap x k) eqn:E.
    + injection H as ->. apply IHr1 in E as (cap' & x' & M & E).
      exists cap', x'. split; [now apply m_alt_l|assumption].
    + apply IHr2 in H as (cap' & x' & M & E').
      exists cap', x'. split; [now apply m_alt_r|assumption].
  - destruct (bt ic R r cap x k) eqn:E.
    + injection H as ->. apply IHr in E as (cap' & x' & M & E).
      exists cap', x'. split; [now apply m_opt_some|assumption].
    + exists cap, x. split; [apply m_opt_none|assumption].
  - apply star_greedy_sound in H as (run & rest & -> & Hr & Hk).
    exists cap, rest. split; [now constructor|assumption].
  - apply plus_lazy_sound in H as (run & rest & -> & Hr & Hn & Hk).
    exists cap, rest. split; [now constructor|assumption].
  - apply IHr in H as (cap' & x' & M & H).
    destruct (matches_suffix _ _ _ _ _ M) as [pre ->].
    rewrite firstn_prefix in H.
    exists (Some pre), x'. split; [|assumption].
    eapply m_group; [eassumption|reflexivity].
  - destruct x as [|a [|b x]].
    + exists cap, []. split; [constructor|assumption].
    + destruct (Ascii.eqb a newline) eqn:E; [|discriminate].
      apply Ascii.eqb_eq in E as ->.
      exists cap, [newline]. split; [constructor|assumption].
    + discriminate.
Qed.




End Soundness.



(** *** Literals *)




(** *** Inversions, one per construct *)










End RegexFacts.
Module TransformFacts.

Import Transform StrFacts RegexFacts Reading Invariants.







Lemma bt_cat_sound ic (R : Type) r1 r2 cap x
  (k : option str -> str -> option R) v :
  bt ic R (Cat r1 r2) cap x k = Some v ->
  exists cap1 x1,
    matches ic r1 cap x cap1 x1 /\ bt ic R r2 cap1 x1 k = Some v.
Proof. intro H. simpl in H. now apply bt_sound in H. Qed.

Tactic Notation "step_cat" hyp(H) "as" ident(c) ident(y) ident(Hm) :=
  apply bt_cat_sound in H as (c & y & Hm & H).
























(** *** The quota on the label's own line *)







(** *** The two extractors on sample texts *)

Example extract_quota_second_label :
  extract_quota (lit "Approximate Quota: 12" ++ [newline]
                 ++ lit "Approximate Quota:" ++ [newline] ++ lit "5")
  = Ok (Some 5%Z).
Proof. reflexivity. Qed.

Example extract_quota_two_markers :
  extract_quota (lit "Approximate Quota:" ++ [newline] ++ lit " ## ## 3")
  = Ok None.
Proof. reflexivity. Qed.

Example extract_quota_leading_zeros :
  extract_quota (lit "approximate quota" ++ [newline] ++ lit "007x")
  = Ok (Some 7%Z).
Proof. reflexivity. Qed.

(** *** Accreditation *)















(** *** The label's own line *)


Lemma str_eqb_refl x : Str.eqb x x = true.
Proof. unfold Str.eqb. now destruct (list_eq_dec ascii_dec x x). Qed.





Example extract_accreditation_blank_value :
  extract_accreditation (lit "Accreditation status:   " ++ [newline])
  = Some [].
Proof. reflexivity. Qed.

Example extract_accreditation_markup :
  extract_accreditation
    (lit "## Statut d’agrÉment : **Agréé** " ++ [newline] ++ lit "more")
  = Some (lit "Agréé")
  /\ extract_accreditation
       (lit "accreditation STATUS : ## **x** ##" ++ [newline])
     = Some (lit "**x**").
Proof. split; reflexivity. Qed.

(** *** Sections *)

Lemma str_eqb_eq x y : Str.eqb x y = true <-> x = y.
Proof.
  unfold Str.eqb. destruct (list_eq_dec ascii_dec x y); split; congruence.
Qed.

Lemma melt_ok df value_vars :
  (forall c, In c value_vars -> In c (columns df)) ->
  melt df value_vars
  = Ok (flat_map
          (fun c =>
             map (fun row => {| m_program_description_id := fst row;
                                m_section_name := c;
                                m_content := cell (columns df) row c |})
                 (rows df))
          value_vars).
Proof.
  intro H. unfold melt.
  assert (E : filter (fun c => negb (existsb (Str.eqb c) (columns df)))
                     value_vars = []).
  { induction value_vars as [|c vs IH]; [reflexivity|]. simpl.
    assert (Hc : existsb (Str.eqb c) (columns df) = true).
    { apply existsb_exists. exists c. split; [apply H; now left|].
      apply str_eqb_refl. }
    rewrite Hc. simpl. apply IH. intros c' Hc'. apply H. now right. }
  now rewrite E.
Qed.

Lemma melt_missing df value_vars c :
  In c value_vars -> ~ In c (columns df) ->
  exists missing, In c missing /\ melt df value_vars = Raise (KeyError missing).
Proof.
  intros Hc Hn. unfold melt.
  assert (Hin : In c (filter (fun c => negb (existsb (Str.eqb c) (columns df)))
                             value_vars)).
  { apply filter_In. split; [exact Hc|]. apply negb_true_iff.
    destruct (existsb (Str.eqb c) (columns df)) eqn:E; [|reflexivity].
    apply existsb_exists in E as (c' & Hc' & E).
    apply str_eqb_eq in E as ->. contradiction. }
  destruct (filter _ value_vars) as [|m ms] eqn:E; [destruct Hin|].
  exists (m :: ms). auto.
Qed.

Lemma dropna_in melted s :
  In s (dropna melted) <->
  exists m, In m melted
            /\ m_content m = Some (content s)
            /\ m_program_description_id m = program_id s
            /\ m_section_name m = section_name s.
Proof.
  unfold dropna. rewrite in_flat_map. split.
  - intros (m & Hm & Hs). exists m. split; [exact Hm|].
    destruct (m_content m) as [text|]; [|destruct Hs].
    destruct Hs as [<- | []]. auto.
  - intros (m & Hm & Hc & Hp & Hn). exists m. split; [exact Hm|].
    rewrite Hc. left. destruct s; simpl in *. now subst.
Qed.

Lemma dropna_length melted :
  List.length (dropna melted)
  = List.length (filter (fun m => is_some (m_content m)) melted).
Proof.
  induction melted as [|m ms IH]; [reflexivity|].
  unfold dropna in *. simpl. rewrite length_app, IH.
  now destruct (m_content m).
Qed.

Lemma filter_map_length {A B} (f : A -> B) (p : B -> bool) l :
  List.length (filter p (map f l))
  = List.length (filter (fun a => p (f a)) l).
Proof.
  induction l as [|a l IH]; [reflexivity|]. simpl.
  destruct (p (f a)); simpl; now rewrite IH.
Qed.

Lemma filter_flat_map_length {A B} (f : A -> list B) (p : B -> bool) l :
  List.length (filter p (flat_map f l))
  = list_sum (map (fun a => List.length (filter p (f a))) l).
Proof.
  induction l as [|a l IH]; [reflexivity|]. simpl.
  now rewrite filter_app, length_app, IH.
Qed.

(** C2. For every wide table that has the section columns, the reshaper
    returns rows such that (program_id, section_name, content) is among them
    exactly when some program row with that id has the non-null cell
    [content] under the section column [section_name]; there are exactly as
    many output rows as non-null section cells, so a null cell gives no row. *)
Theorem stg_sections_spec (df : SectionsFrame) :
  (forall c, In c SECTION_COLUMNS -> In c (columns df)) ->
  exists out,
    stg_sections df = Ok out
    /\ (forall pid sec text,
          In {| program_id := pid; section_name := sec; content := text |} out
          <-> exists row,
                In row (rows df) /\ fst row = pid
                /\ In sec SECTION_COLUMNS
                /\ cell (columns df) row sec = Some text)
    /\ List.length out = non_empty_cells df.
Proof.
  intro Hcols. unfold stg_sections. rewrite (melt_ok df _ Hcols).
  eexists. split; [reflexivity|]. split.
  - intros pid sec text. rewrite dropna_in. cbn [content program_id section_name].
    split.
    + intros (m & Hm & Hc & Hp & Hn).
      apply in_flat_map in Hm as (c & Hc' & Hm).
      apply in_map_iff in Hm as (row & <- & Hrow).
      cbn [m_content m_program_description_id m_section_name] in *.
      exists row. subst. auto.
    + intros (row & Hrow & Hp & Hsec & Hc).
      exists {| m_program_description_id := fst row;
                m_section_name := sec;
                m_content := cell (columns df) row sec |}.
      cbn [m_content m_program_description_id m_section_name].
      split; [|auto].
      apply in_flat_map. exists sec. split; [exact Hsec|].
      apply in_map_iff. now exists row.
  - rewrite dropna_length, filter_flat_map_length. unfold non_empty_cells.
    f_equal. apply map_ext. intro c. now rewrite filter_map_length.
Qed.

(** A table of two programs with a leading document_id column: three of
    its section cells are not null. *)
Lemma stg_sections_spec_witness :
  exists out,
    stg_sections
      {| columns := lit "document_id" :: SECTION_COLUMNS;
         rows := [ (27447%Z, [Some (lit "1503|27447");
                              Some (lit "Anesthesiology"); None;
                              Some (lit "Two-year contract")]);
                   (27448%Z, [Some (lit "1503|27448"); None;
                              Some (lit "R-1 Main")]) ] |}
    = Ok out
    /\ List.length out = 3%nat.
Proof.
  destruct (stg_sections_spec
              {| columns := lit "document_id" :: SECTION_COLUMNS;
                 rows := [ (27447%Z, [Some (lit "1503|27447");
                                      Some (lit "Anesthesiology"); None;
                                      Some (lit "Two-year contract")]);
                           (27448%Z, [Some (lit "1503|27448"); None;
                                      Some (lit "R-1 Main")]) ] |})
    as (out & E & _ & L).
  - intros c Hc. now right.
  - exists out. split; [exact E|]. rewrite L. reflexivity.
Defined.

(** A missing section column is a KeyError. *)
Lemma stg_sections_missing df c :
  In c SECTION_COLUMNS -> ~ In c (columns df) ->
  exists missing, In c missing /\ stg_sections df = Raise (KeyError missing).
Proof.
  intros Hc Hn. destruct (melt_missing df _ c Hc Hn) as (missing & Hm & E).
  exists missing. unfold stg_sections. now rewrite E.
Qed.

(** [dropna] tests for null, not for emptiness of the text: a cell holding
    the empty string is kept. *)
Lemma stg_sections_keeps_empty_string :
  stg_sections {| columns := SECTION_COLUMNS; rows := [(1%Z, [Some []])] |}
  = Ok [ {| program_id := 1; section_name := lit "program_name";
            content := [] |} ].
Proof. reflexivity. Qed.

(** *** Institutions *)

Lemma group_key_iff name (g : list (str * Z)) :
  existsb (fun e => Str.eqb name (fst e)) g = true <-> In name (map fst g).
Proof.
  rewrite existsb_exists, in_map_iff. split.
  - intros (e & He & E). apply str_eqb_eq in E. now exists e.
  - intros (e & E & He). exists e. split; [exact He|]. now apply str_eqb_eq.
Qed.

Lemma update_min_keys name id g :
  map fst (update_min name id g) = map fst g.
Proof.
  induction g as [|[n m] g IH]; [reflexivity|]. simpl.
  destruct (Str.eqb name n); simpl; [reflexivity|now rewrite IH].
Qed.

Lemma update_min_in name id g n m :
  NoDup (map fst g) ->
  In (n, m) (update_min name id g) ->
  (n <> name /\ In (n, m) g)
  \/ (n = name /\ exists m0, In (name, m0) g /\ m = Z.min m0 id).
Proof.
  induction g as [|[n' m'] g IH]; simpl; [tauto|].
  intros Hnd Hin. inversion Hnd as [|? ? Hn' Hnd']; subst.
  destruct (Str.eqb name n') eqn:E.
  - apply str_eqb_eq in E as <-. destruct Hin as [[= <- <-] | Hin].
    + right. split; [reflexivity|]. exists m'. auto.
    + left. split; [|now right]. intros ->. apply Hn'.
      apply in_map_iff. now exists (name, m).
  - assert (name <> n') by (intros ->; now rewrite str_eqb_refl in E).
    destruct Hin as [[= <- <-] | Hin].
    + left. split; [congruence|now left].
    + destruct (IH Hnd' Hin) as [[? ?] | (-> & m0 & ? & ->)].
      * left. auto.
      * right. split; [reflexivity|]. exists m0. auto.
Qed.

Lemma insert_sorted_in name id g e :
  In e (insert_sorted name id g) <-> e = (name, id) \/ In e g.
Proof.
  induction g as [|[n' m'] g IH]; simpl.
  - intuition.
  - destruct (Str.ltb name n'); simpl; [intuition|]. rewrite IH. intuition.
Qed.

Lemma insert_sorted_nodup name id g :
  NoDup (map fst g) -> ~ In name (map fst g) ->
  NoDup (map fst (insert_sorted name id g)).
Proof.
  induction g as [|[n' m'] g IH]; simpl; intros Hnd Hn.
  - constructor; [intros []|constructor].
  - destruct (Str.ltb name n'); simpl.
    + constructor; [exact Hn|exact Hnd].
    + inversion Hnd as [|? ? Hn' Hnd']; subst. constructor.
      * intro Hin. apply in_map_iff in Hin as ([n m] & E & Hin).
        simpl in E. subst n.
        apply insert_sorted_in in Hin as [[= -> ->] | Hin]; [tauto|].
        apply Hn'. apply in_map_iff. now exists (n', m).
      * apply IH; [exact Hnd'|tauto].
Qed.

Lemma groups_of_step seen g r :
  groups_of seen g ->
  groups_of (seen ++ [r]) (group_min_insert (school_name r) (school_id r) g).
Proof.
  intros (Hnd & Hkeys & Hmin). unfold group_min_insert.
  destruct (existsb _ g) eqn:E.
  - apply group_key_iff in E. split; [|split].
    + rewrite update_min_keys. exact Hnd.
    + intro name. rewrite update_min_keys, map_app, in_app_iff, Hkeys.
      simpl. split; [tauto|].
      intros [H | [<- | []]]; [exact H|]. now apply Hkeys.
    + intros name m H. apply update_min_in in H; [|exact Hnd].
      destruct H as [[Hne Hin] | (-> & m0 & Hin & ->)];
        destruct (Hmin _ _ Hin) as [(r0 & Hr0 & Hn0 & Hi0) Hle]; split.
      * exists r0. rewrite in_app_iff. auto.
      * intros r1 Hr1 Hn1.
        apply in_app_iff in Hr1 as [Hr1 | [<- | []]];
          [now apply Hle|congruence].
      * destruct (Z.min_spec m0 (school_id r)) as [[_ ->] | [_ ->]].
        -- exists r0. rewrite in_app_iff. auto.
        -- exists r. rewrite in_app_iff. simpl. auto.
      * intros r1 Hr1 Hn1. apply in_app_iff in Hr1 as [Hr1 | [<- | []]].
        -- specialize (Hle r1 Hr1 Hn1). lia.
        -- lia.
  - assert (Hn : ~ In (school_name r) (map fst g)).
    { intro H. apply group_key_iff in H. congruence. }
    split; [|split].
    + now apply insert_sorted_nodup.
    + intro name. rewrite map_app, in_app_iff. simpl. split.
      * intro H. apply in_map_iff in H as ([n m] & <- & Hin).
        apply insert_sorted_in in Hin as [[= -> ->] | Hin]; [auto|].
        left. apply Hkeys. apply in_map_iff. now exists (n, m).
      * intros [H | [<- | []]].
        -- apply Hkeys in H. apply in_map_iff in H as (e & <- & He).
           apply in_map_iff. exists e. split; [reflexivity|].
           apply insert_sorted_in. now right.
        -- apply in_map_iff. exists (school_name r, school_id r).
           split; [reflexivity|]. apply insert_sorted_in. now left.
    + intros name m H. apply insert_sorted_in in H as [[= -> ->] | Hin]; split.
      * exists r. rewrite in_app_iff. simpl. auto.
      * intros r1 Hr1 Hn1. apply in_app_iff in Hr1 as [Hr1 | [<- | []]]; [|lia].
        exfalso. apply Hn, Hkeys. apply in_map_iff. now exists r1.
      * destruct (Hmin _ _ Hin) as [(r0 & Hr0 & Hn0 & Hi0) _].
        exists r0. rewrite in_app_iff. auto.
      * intros r1 Hr1 Hn1. apply in_app_iff in Hr1 as [Hr1 | [<- | []]].
        -- now apply (Hmin _ _ Hin).
        -- exfalso. apply Hn. apply in_map_iff. exists (name, m).
           split; [simpl; now symmetry|exact Hin].
Qed.

Lemma groups_of_fold rows : forall seen g,
  groups_of seen g ->
  groups_of (seen ++ rows)
    (fold_left (fun g r => group_min_insert (school_name r) (school_id r) g)
               rows g).
Proof.
  induction rows as [|r rows IH]; intros seen g H; simpl.
  - now rewrite app_nil_r.
  - replace (seen ++ r :: rows) with ((seen ++ [r]) ++ rows)
      by now rewrite <- app_assoc.
    apply IH. now apply groups_of_step.
Qed.

Lemma groupby_min_groups raw : groups_of raw (groupby_min raw).
Proof.
  apply (groups_of_fold raw [] []). split; [constructor|]. split.
  - intro name. simpl. tauto.
  - intros name m [].
Qed.


Lemma language_of_fr name :
  language_of name = lit "fr" <-> In name FRENCH_SCHOOLS.
Proof.
  unfold language_of. destruct (existsb (Str.eqb name) FRENCH_SCHOOLS) eqn:E.
  - split; [|reflexivity]. intros _.
    apply existsb_exists in E as (n & Hn & E). apply str_eqb_eq in E. now subst.
  - split; [discriminate|]. intro H.
    assert (existsb (Str.eqb name) FRENCH_SCHOOLS = true); [|congruence].
    apply existsb_exists. exists name. split; [exact H|apply str_eqb_refl].
Qed.

Lemma language_of_en name :
  language_of name = lit "en" <-> ~ In name FRENCH_SCHOOLS.
Proof.
  rewrite <- language_of_fr. unfold language_of.
  destruct (existsb (Str.eqb name) FRENCH_SCHOOLS); split;
    try discriminate; try congruence; try reflexivity.
Qed.

Lemma is_unique_nodup l : is_unique l = true <-> NoDup l.
Proof.
  induction l as [|a l IH]; simpl.
  - split; [constructor|reflexivity].
  - rewrite andb_true_iff, negb_true_iff, IH. split.
    + intros [Ha Hl]. constructor; [|exact Hl]. intro Hin.
      assert (existsb (Z.eqb a) l = true); [|congruence].
      apply existsb_exists. exists a. split; [exact Hin|apply Z.eqb_refl].
    + intro H. inversion H as [|? ? Ha Hl]; subst. split; [|exact Hl].
      destruct (existsb (Z.eqb a) l) eqn:E; [|reflexivity].
      apply existsb_exists in E as (b & Hb & E). apply Z.eqb_eq in E as ->.
      contradiction.
Qed.

Lemma institutions_frame_names raw :
  map inst_name (institutions_frame raw) = map fst (groupby_min raw).
Proof. unfold institutions_frame. rewrite map_map. reflexivity. Qed.

Lemma distinct_count raw :
  List.length (institutions_frame raw)
  = List.length (distinct_school_names raw).
Proof.
  rewrite <- (length_map inst_name), institutions_frame_names.
  destruct (groupby_min_groups raw) as (Hnd & Hkeys & _).
  unfold distinct_school_names.
  apply Permutation_length.
  apply NoDup_Permutation; [exact Hnd|apply NoDup_nodup|].
  intro name. now rewrite Hkeys, nodup_In.
Qed.

(** C6. For every program-master input, the frame the institution deriver
    builds has exactly one institution per distinct school_name; the id of
    each is the least school_id among the rows of that name; its language
    is "fr" if the name is in the fixed French set and "en" otherwise.  The
    deriver returns this frame when it holds 18 institutions with distinct
    ids, and raises an assertion error otherwise. *)
Theorem stg_institutions_spec (raw : list RawProgram) :
  let institutions := institutions_frame raw in
  NoDup (map inst_name institutions)
  /\ (forall name,
        In name (map inst_name institutions)
        <-> In name (map school_name raw))
  /\ (forall i, In i institutions ->
        least_school_id raw (inst_name i) (inst_id i)
        /\ (inst_language i = lit "fr" <-> In (inst_name i) FRENCH_SCHOOLS)
        /\ (inst_language i = lit "en" <-> ~ In (inst_name i) FRENCH_SCHOOLS))
  /\ (stg_institutions raw = Ok institutions
      <-> List.length (distinct_school_names raw) = 18%nat
          /\ NoDup (map inst_id institutions))
  /\ (stg_institutions raw = Ok institutions
      \/ exists msg, stg_institutions raw = Raise (AssertionError msg)).
Proof.
  intro institutions. subst institutions.
  destruct (groupby_min_groups raw) as (Hnd & Hkeys & Hmin).
  split; [now rewrite institutions_frame_names|].
  split; [intro name; now rewrite institutions_frame_names|].
  split.
  { intros i Hi. unfold institutions_frame in Hi.
    apply in_map_iff in Hi as ([n m] & <- & Hg). cbn [inst_name inst_id inst_language fst snd].
    split; [now apply Hmin|]. split; [apply language_of_fr|apply language_of_en]. }
  unfold stg_institutions. rewrite <- distinct_count.
  destruct (Nat.eqb (List.length (institutions_frame raw)) 18) eqn:E18;
    cbn [negb].
  - apply Nat.eqb_eq in E18.
    destruct (is_unique (map inst_id (institutions_frame raw))) eqn:Eu;
      cbn [negb].
    + apply is_unique_nodup in Eu. split; [tauto|now left].
    + split.
      * split; [discriminate|]. intros [_ H]. apply is_unique_nodup in H.
        congruence.
      * right. eauto.
  - apply Nat.eqb_neq in E18. split.
    + split; [discriminate|]. tauto.
    + right. eauto.
Qed.

(** On the sample table the deriver returns its frame: McGill gets the lower
    of its two ids. *)
Lemma stg_institutions_spec_witness :
  stg_institutions sample_master = Ok (institutions_frame sample_master)
  /\ In {| inst_id := 6; inst_name := lit "McGill University";
           inst_language := lit "en" |}
        (institutions_frame sample_master).
Proof.
  split.
  - apply (proj1 (proj2 (proj2 (proj2 (stg_institutions_spec sample_master))))).
    split; [reflexivity|]. apply is_unique_nodup. reflexivity.
  - vm_compute. tauto.
Defined.

End TransformFacts.

(** ** Retrieval *)

Module SearchFacts.

Import Search Reading Invariants.


Lemma seen_key_iff pid seen :
  has_key pid seen = true <-> In pid (map fst seen).
Proof.
  unfold has_key. rewrite existsb_exists, in_map_iff. split.
  - intros (kv & Hkv & E). apply Z.eqb_eq in E. now exists kv.
  - intros (kv & E & Hkv). exists kv. split; [exact Hkv|]. now apply Z.eqb_eq.
Qed.

Lemma seen_of_step pre seen row :
  seen_of pre seen -> seen_of (pre ++ [row]) (dedup_step seen row).
Proof.
  intros (Hnd & Hkeys & Hfirst). unfold dedup_step.
  destruct (has_key (row0 row) seen) eqn:E; cbn [negb].
  - apply seen_key_iff in E. split; [exact Hnd|]. split.
    + intro pid. rewrite map_app, in_app_iff, Hkeys. simpl. split; [tauto|].
      intros [H | [<- | []]]; [exact H|]. now apply Hkeys.
    + intros pid r Hin.
      destruct (Hfirst pid r Hin) as (before & x & after & -> & H0 & Hr & Hb).
      exists before, x, (after ++ [row]). rewrite <- app_assoc. auto.
  - assert (Hn : ~ In (row0 row) (map fst seen)).
    { intro H. apply seen_key_iff in H. congruence. }
    split; [|split].
    + rewrite map_app. simpl.
      apply NoDup_app; [exact Hnd|constructor; [intros []|constructor]|].
      intros a Ha [<- | []]. contradiction.
    + intro pid. rewrite !map_app, !in_app_iff, Hkeys. simpl. tauto.
    + intros pid r Hin. apply in_app_iff in Hin as [Hin | [[= <- <-] | []]].
      * destruct (Hfirst pid r Hin) as (before & x & after & -> & H0 & Hr & Hb).
        exists before, x, (after ++ [row]). rewrite <- app_assoc. auto.
      * exists pre, row, []. repeat split. now rewrite <- Hkeys.
Qed.

Lemma seen_of_fold rows : forall pre seen,
  seen_of pre seen -> seen_of (pre ++ rows) (fold_left dedup_step rows seen).
Proof.
  induction rows as [|row rows IH]; intros pre seen H; simpl.
  - now rewrite app_nil_r.
  - replace (pre ++ row :: rows) with ((pre ++ [row]) ++ rows)
      by now rewrite <- app_assoc.
    apply IH. now apply seen_of_step.
Qed.

Lemma seen_of_all rows : seen_of rows (fold_left dedup_step rows []).
Proof.
  apply (seen_of_fold rows [] []). split; [constructor|]. split.
  - intro pid. simpl. tauto.
  - intros pid r [].
Qed.

Lemma seen_key_is_program_id rows pid r :
  In (pid, r) (fold_left dedup_step rows []) -> program_id r = pid.
Proof.
  intro H. destruct (seen_of_all rows) as (_ & _ & Hfirst).
  destruct (Hfirst pid r H) as (_ & row & _ & _ & <- & -> & _). reflexivity.
Qed.

Lemma deduplicate_ids rows :
  map program_id (deduplicate rows) = map fst (fold_left dedup_step rows []).
Proof.
  unfold deduplicate. rewrite map_map. apply map_ext_in.
  intros [pid r] H. simpl. now apply (seen_key_is_program_id rows).
Qed.

Lemma sorted_after {A} (R : A -> A -> Prop) before x after :
  StronglySorted R (before ++ x :: after) -> Forall (R x) after.
Proof.
  induction before as [|b before IH]; simpl; intro H.
  - now apply StronglySorted_inv in H as [_ H].
  - apply StronglySorted_inv in H as [H _]. now apply IH.
Qed.


Section Retrieval.

Variable Vec : Type.
Variable embed_query : str -> Vec.
Variable nearest_hits : Vec -> Z -> option str -> list Hit.

(** C1. Let [hits] be the raw hits the nearest-neighbour query returns, in
    the order it returns them.  [semantic_search] returns one result per
    distinct program id of [hits] and no other; each result is made from
    the first hit of its program, every later hit of that program being
    dropped; and when [hits] are in ascending order of distance, no hit of
    that program is nearer than the one kept.  For the hits (program 5 at
    0.1), (program 5 at 0.3), (program 7 at 0.2) the results are two: program
    5 from its hit at distance 0.1 (score 0.9) and program 7 from its hit at
    distance 0.2 (score 0.8). *)
Theorem semantic_search_dedup q top_k stream_category hits :
  nearest_hits (embed_query q) top_k (category_filter stream_category) = hits ->
  let response :=
    semantic_search Vec embed_query nearest_hits q top_k stream_category in
  NoDup (map program_id (results response))
  /\ (forall pid,
        In pid (map program_id (results response))
        <-> In pid (map hit_program_id hits))
  /\ (forall r, In r (results response) ->
        exists before h after,
          hits = before ++ h :: after
          /\ r = result_of_row (select_row h)
          /\ hit_program_id h = program_id r
          /\ ~ In (program_id r) (map hit_program_id before)
          /\ (ascending hits ->
              forall h', In h' hits -> hit_program_id h' = program_id r ->
                         (hit_distance h <= hit_distance h')%Q))
  /\ total response = Z.of_nat (List.length (results response))
  /\ deduplicate (map select_row sample_hits)
     = [ sample_result 5 (9 # 10) (lit "rural rotations");
         sample_result 7 (4 # 5) (lit "rural electives") ].
Proof.
  intros Hhits response. subst response. unfold semantic_search.
  cbn [results total]. rewrite Hhits.
  destruct (seen_of_all (map select_row hits)) as (Hnd & Hkeys & Hfirst).
  assert (Hpid : map row0 (map select_row hits) = map hit_program_id hits)
    by (rewrite map_map; reflexivity).
  split; [now rewrite deduplicate_ids|].
  split; [intro pid; now rewrite deduplicate_ids, Hkeys, Hpid|].
  split; [|split; reflexivity].
  intros r Hr. unfold deduplicate in Hr.
  apply in_map_iff in Hr as ([pid r'] & E & Hin). simpl in E. subst r'.
  destruct (Hfirst pid r Hin) as (before & row & after & Erows & H0 & -> & Hb).
  apply map_eq_app in Erows as (hb & hrest & -> & <- & Erest).
  apply map_eq_cons in Erest as (h & ha & -> & <- & <-).
  subst pid. exists hb, h, ha.
  rewrite map_map in Hb. cbn [row0 select_row] in Hb.
  repeat split; auto.
  intros Hsorted h' Hh' Hsame. cbn [program_id result_of_row row0 select_row] in Hsame.
  apply in_app_iff in Hh' as [Hh' | [<- | Hh']].
  - exfalso. apply Hb. cbn [program_id result_of_row row0 select_row].
    rewrite <- Hsame. now apply in_map.
  - apply Qle_refl.
  - apply sorted_after in Hsorted. rewrite Forall_forall in Hsorted.
    now apply Hsorted.
Qed.

End Retrieval.

(** The hits of the example in ascending order: the hit of program 5 at
    distance 0.3 is dropped, and the one kept for program 5 is its nearest. *)
Lemma semantic_search_dedup_witness :
  let response :=
    semantic_search unit (fun _ => tt) (fun _ _ _ => sorted_hits)
                    (lit "rural family medicine") 3 None in
  ascending sorted_hits
  /\ results response
     = [ sample_result 5 (9 # 10) (lit "rural rotations");
         sample_result 7 (4 # 5) (lit "rural electives") ]
  /\ NoDup (map program_id (results response))
  /\ total response = 2%Z.
Proof.
  pose proof (semantic_search_dedup unit (fun _ => tt) (fun _ _ _ => sorted_hits)
                (lit "rural family medicine") 3 None sorted_hits eq_refl)
    as (Hnd & _).
  split.
  - unfold ascending, sorted_hits.
    repeat (constructor; [|repeat constructor; unfold Qle; simpl; lia]).
    constructor.
  - split; [reflexivity|]. split; [exact Hnd|reflexivity].
Defined.

Section Answer.

Variable Vec : Type.
Variable embed_query : str -> Vec.
Variable nearest_chunks : Vec -> Z -> list (str * str * str).
Variable llm_invoke : str -> str + str.

Lemma skipn_same {A} (l l' : list A) : skipn (List.length l) (l ++ l') = l'.
Proof. now rewrite skipn_app, Nat.sub_diag, skipn_all. Qed.

Lemma question_answer_no_hits q top_k calls0 :
  nearest_chunks (embed_query q) top_k = [] ->
  question_answer Vec embed_query nearest_chunks llm_invoke q top_k calls0
  = (Raise (HTTPException 404 (lit "No relevant program data found.")),
     calls0 ++ [EmbedQuery q; SqlQuery top_k]).
Proof.
  intro E. unfold question_answer, bind, record_call, raise.
  rewrite E. now rewrite <- app_assoc.
Qed.

Lemma question_answer_hits q top_k calls0 :
  nearest_chunks (embed_query q) top_k <> [] ->
  exists prompt,
    snd (question_answer Vec embed_query nearest_chunks llm_invoke q top_k
                         calls0)
    = calls0 ++ [EmbedQuery q; SqlQuery top_k; LlmInvoke prompt].
Proof.
  intro E. unfold question_answer, bind, record_call, try_except, raise, ret.
  destruct (nearest_chunks (embed_query q) top_k) as [|row rows];
    [now contradiction E|].
  eexists.
  destruct (llm_invoke _) as [text|msg]; cbn [exn_str].
  - cbn [snd]. rewrite <- !app_assoc. reflexivity.
  - destruct (contains (lit "Connection") msg || contains (lit "refused") msg);
      cbn [snd]; rewrite <- !app_assoc; reflexivity.
Qed.

(** C7. Whatever calls were made before, when retrieval yields no hit
    [question_answer] raises the 404 "No relevant program data found." and
    has called the embedder and the database only; when retrieval yields a
    hit it calls the generative model, once; so the model is invoked exactly
    when at least one chunk was retrieved. *)
Theorem question_answer_empty_guard q top_k calls0 :
  let retrieved := nearest_chunks (embed_query q) top_k in
  let out :=
    question_answer Vec embed_query nearest_chunks llm_invoke q top_k calls0 in
  (retrieved = [] ->
     fst out = Raise (HTTPException 404 (lit "No relevant program data found."))
     /\ snd out = calls0 ++ [EmbedQuery q; SqlQuery top_k])
  /\ (retrieved <> [] ->
        exists prompt,
          snd out = calls0 ++ [EmbedQuery q; SqlQuery top_k; LlmInvoke prompt])
  /\ (invoked_llm (skipn (List.length calls0) (snd out)) = true
      <-> retrieved <> []).
Proof.
  intros retrieved out. subst retrieved out.
  split; [|split].
  - intro E. now rewrite (question_answer_no_hits q top_k calls0 E).
  - apply question_answer_hits.
  - destruct (nearest_chunks (embed_query q) top_k) as [|row rows] eqn:E.
    + rewrite (question_answer_no_hits q top_k calls0 E). cbn [snd].
      rewrite skipn_same. split; [discriminate|intro H; now contradiction H].
    + assert (Hne : nearest_chunks (embed_query q) top_k <> [])
        by (rewrite E; discriminate).
      destruct (question_answer_hits q top_k calls0 Hne) as [prompt ->].
      rewrite skipn_same. split; [discriminate|reflexivity].
Qed.

End Answer.

(** With nothing retrieved the model is never reached, even one that would
    answer. *)
Lemma question_answer_empty_guard_witness :
  question_answer unit (fun _ => tt) (fun _ _ => [])
                  (fun _ => inl (lit "Invented answer"))
                  (lit "Which programs offer rural training?") 5 []
  = (Raise (HTTPException 404 (lit "No relevant program data found.")),
     [EmbedQuery (lit "Which programs offer rural training?"); SqlQuery 5]).
Proof.
  pose proof (question_answer_empty_guard unit (fun _ => tt) (fun _ _ => [])
                (fun _ => inl (lit "Invented answer"))
                (lit "Which programs offer rural training?") 5 [])
    as [H _].
  specialize (H eq_refl). destruct H as [H1 H2].
  apply injective_projections; [exact H1|exact H2].
Defined.

End SearchFacts.

(** ** The load stages *)

Module LoadFacts.

Import Load Reading Invariants.

Section Stages.

Context {Vec : Type}.
Variable encode : list str -> list Vec.

Abbreviation Session := (Session Vec).
Abbreviation World := (World Vec).

(** *** What a session computation sends *)

Lemma quiet_commit : quiet (commit (Vec := Vec)).
Proof.
  intro s. split; [|discriminate]. exists [Commit]. auto.
Qed.

Lemma quiet_bind (c k : M Session unit) :
  quiet c -> quiet k -> quiet (c ;;; k).
Proof.
  intros Hc Hk s. unfold bind.
  destruct (Hc s) as [(qs & E & Hq) Hr]. destruct (c s) as [[[]|e] s1].
  - cbn [fst snd] in *. destruct (Hk s1) as [(qs' & E' & Hq') Hr'].
    split; [|exact Hr']. exists (qs ++ qs'). rewrite E', E, <- app_assoc.
    split; [reflexivity|]. now rewrite forallb_app, Hq, Hq'.
  - cbn [fst snd] in *. split; [|exact Hr]. now exists qs.
Qed.

Lemma quiet_for_each {A} (l : list A) (body : A -> M Session unit) :
  (forall a, quiet (body a)) -> quiet (for_each l body).
Proof.
  intro H. induction l as [|a l IH]; cbn [for_each].
  - intro s. split; [|discriminate]. exists []. now rewrite app_nil_r.
  - now apply quiet_bind.
Qed.

Ltac quiet_insert :=
  let s := fresh "s" in
  intro s; split;
  [ eexists; split;
    [ repeat match goal with
             | |- context [if ?b then _ else _] => destruct b
             end; cbn [snd sent send set_working]; reflexivity
    | reflexivity ]
  | intro t;
    repeat match goal with
           | |- context [if ?b then _ else _] => destruct b
           end; discriminate ].

Lemma quiet_add_all_disciplines records :
  quiet (add_all_disciplines (Vec := Vec) records).
Proof. unfold add_all_disciplines. quiet_insert. Qed.

Lemma quiet_add_all_institutions records :
  quiet (add_all_institutions (Vec := Vec) records).
Proof. unfold add_all_institutions. quiet_insert. Qed.

Lemma quiet_add_all_programs records :
  quiet (add_all_programs (Vec := Vec) records).
Proof. unfold add_all_programs. quiet_insert. Qed.

Lemma quiet_add_all_descriptions records :
  quiet (add_all_descriptions (Vec := Vec) records).
Proof. unfold add_all_descriptions. quiet_insert. Qed.

Lemma quiet_add_all_embeddings records :
  quiet (add_all_embeddings (Vec := Vec) records).
Proof. unfold add_all_embeddings. quiet_insert. Qed.

(** *** The deletions *)

(** A deletion from a table that nothing refers to goes through. *)
Lemma delete_bind t (k : M Session unit) s :
  referenced t (working s) = false ->
  (delete t ;;; k) s
  = k (set_working (clear t (working s)) (send (Delete t) s)).
Proof.
  intro H. unfold bind, delete. cbn [working send]. now rewrite H.
Qed.

Lemma commit_bind (k : M Session unit) s :
  (commit ;;; k) s
  = k {| committed := working s; working := working s; seqs := seqs s;
         sent := sent s ++ [Commit] |}.
Proof. reflexivity. Qed.

Lemma with_session_shape (body rest : M Session unit)
      (after : Session -> Session) pre :
  (forall s, body s = rest (after s)) ->
  (forall s, sent (after s) = sent s ++ pre) ->
  quiet rest ->
  forall w : World,
    (exists qs,
       trace (snd (with_session body w)) = trace w ++ pre ++ qs
       /\ forallb (fun q => negb (is_deletion q)) qs = true)
    /\ forall t,
        fst (with_session body w)
        <> Raise (IntegrityError (ForeignKeyOnDelete t)).
Proof.
  intros Hbody Hsent Hq w. unfold with_session. rewrite Hbody.
  match goal with |- context [rest ?s0] => set (s1 := s0) end.
  destruct (Hq s1) as [(qs & E & Hqs) Hr].
  destruct (rest s1) as [r s2]. cbn [fst snd trace] in *. split; [|exact Hr].
  exists qs. split; [|exact Hqs]. subst s1. rewrite E, Hsent. cbn [sent].
  now rewrite <- app_assoc.
Qed.

Ltac run_deletes :=
  repeat (rewrite delete_bind by reflexivity); rewrite commit_bind.

Lemma db_disciplines_shape stg (w : World) :
  (exists qs,
     trace (snd (db_disciplines stg w))
     = trace w
       ++ [Delete ProgramEmbeddings; Delete ProgramDescriptions;
           Delete Programs; Delete Institutions; Delete Disciplines; Commit]
       ++ qs
     /\ forallb (fun q => negb (is_deletion q)) qs = true)
  /\ forall t,
      fst (db_disciplines stg w)
      <> Raise (IntegrityError (ForeignKeyOnDelete t)).
Proof.
  unfold db_disciplines. eapply with_session_shape.
  - intro s. run_deletes. reflexivity.
  - intro s. cbn [sent send set_working]. now rewrite <- !app_assoc.
  - apply quiet_bind; [apply quiet_add_all_disciplines|apply quiet_commit].
Qed.

Lemma db_institutions_shape stg (w : World) :
  (exists qs,
     trace (snd (db_institutions stg w))
     = trace w
       ++ [Delete ProgramEmbeddings; Delete ProgramDescriptions;
           Delete Programs; Delete Institutions; Commit]
       ++ qs
     /\ forallb (fun q => negb (is_deletion q)) qs = true)
  /\ forall t,
      fst (db_institutions stg w)
      <> Raise (IntegrityError (ForeignKeyOnDelete t)).
Proof.
  unfold db_institutions. eapply with_session_shape.
  - intro s. run_deletes. reflexivity.
  - intro s. cbn [sent send set_working]. now rewrite <- !app_assoc.
  - apply quiet_bind; [apply quiet_add_all_institutions|apply quiet_commit].
Qed.

Lemma db_programs_shape stg (w : World) :
  (exists qs,
     trace (snd (db_programs stg w))
     = trace w
       ++ [Delete ProgramEmbeddings; Delete ProgramDescriptions;
           Delete Programs; Commit]
       ++ qs
     /\ forallb (fun q => negb (is_deletion q)) qs = true)
  /\ forall t,
      fst (db_programs stg w)
      <> Raise (IntegrityError (ForeignKeyOnDelete t)).
Proof.
  unfold db_programs. eapply with_session_shape.
  - intro s. run_deletes. reflexivity.
  - intro s. cbn [sent send set_working]. now rewrite <- !app_assoc.
  - apply quiet_bind; [apply quiet_add_all_programs|apply quiet_commit].
Qed.

Lemma db_descriptions_shape stg (w : World) :
  (exists qs,
     trace (snd (db_descriptions stg w))
     = trace w ++ [Delete ProgramDescriptions; Commit] ++ qs
     /\ forallb (fun q => negb (is_deletion q)) qs = true)
  /\ forall t,
      fst (db_descriptions stg w)
      <> Raise (IntegrityError (ForeignKeyOnDelete t)).
Proof.
  unfold db_descriptions. eapply with_session_shape.
  - intro s. run_deletes. reflexivity.
  - intro s. cbn [sent send set_working]. now rewrite <- !app_assoc.
  - apply quiet_for_each. intro i.
    apply quiet_bind; [apply quiet_add_all_descriptions|apply quiet_commit].
Qed.

Lemma db_embeddings_shape chunks (w : World) :
  (exists qs,
     trace (snd (db_embeddings encode chunks w))
     = trace w ++ [DropCreate ProgramEmbeddings; Commit] ++ qs
     /\ forallb (fun q => negb (is_deletion q)) qs = true)
  /\ forall t,
      fst (db_embeddings encode chunks w)
      <> Raise (IntegrityError (ForeignKeyOnDelete t)).
Proof.
  unfold db_embeddings, bind, recreate_program_embeddings, create_vector_index.
  match goal with
  | |- context [with_session ?b ?w1] =>
      destruct (with_session_shape b b (fun s => s) [] (fun s => eq_refl)
                  (fun s => eq_sym (app_nil_r (sent s)))
                  ltac:(apply quiet_for_each; intro i;
                        apply quiet_bind;
                        [apply quiet_add_all_embeddings|apply quiet_commit])
                  w1) as [(qs & E & Hqs) Hr];
      destruct (with_session b w1) as [[[]|e] w2]
  end; cbn [fst snd trace app] in *.
  - split; [|discriminate]. exists (qs ++ [CreateIndex; Commit]).
    rewrite E, <- !app_assoc. split; [reflexivity|].
    now rewrite forallb_app, Hqs.
  - split; [|exact Hr]. exists qs. rewrite E, <- !app_assoc. auto.
Qed.

Lemma run_stage_shape input a (w : World) :
  (exists qs,
     trace (snd (run_stage encode input a w))
     = trace w
       ++ (map Delete (removelast (deleted_by a))
           ++ [match a with
               | DbEmbeddings => DropCreate ProgramEmbeddings
               | _ => Delete (last (deleted_by a) Disciplines)
               end; Commit])
       ++ qs
     /\ forallb (fun q => negb (is_deletion q)) qs = true)
  /\ forall t,
      fst (run_stage encode input a w)
      <> Raise (IntegrityError (ForeignKeyOnDelete t)).
Proof.
  destruct a; cbn [run_stage deleted_by removelast last map app].
  - apply db_disciplines_shape.
  - apply db_institutions_shape.
  - apply db_programs_shape.
  - apply db_descriptions_shape.
  - apply db_embeddings_shape.
Qed.

Lemma deletes_first_quiet qs :
  forallb (fun q => negb (is_deletion q)) qs = true -> deletes_first qs = true.
Proof.
  induction qs as [|q qs IH]; cbn [forallb deletes_first]; [reflexivity|].
  rewrite andb_true_iff. intros [_ Hqs]. rewrite (IH Hqs), andb_true_r.
  destruct (is_insert q); [|reflexivity].
  apply negb_true_iff. destruct (existsb is_deletion qs) eqn:E; [|reflexivity].
  apply existsb_exists in E as (x & Hx & Ex).
  rewrite forallb_forall in Hqs. specialize (Hqs x Hx). now rewrite Ex in Hqs.
Qed.

Lemma deletes_first_app pre qs :
  forallb (fun q => negb (is_insert q)) pre = true ->
  forallb (fun q => negb (is_deletion q)) qs = true ->
  deletes_first (pre ++ qs) = true.
Proof.
  intros Hpre Hqs. induction pre as [|q pre IH]; cbn [app].
  - now apply deletes_first_quiet.
  - cbn [forallb] in Hpre. apply andb_true_iff in Hpre as [Hq Hpre].
    cbn [deletes_first]. rewrite (IH Hpre), andb_true_r.
    apply negb_true_iff in Hq. now rewrite Hq.
Qed.

Lemma deletions_quiet qs :
  forallb (fun q => negb (is_deletion q)) qs = true -> deletions qs = [].
Proof.
  induction qs as [|q qs IH]; cbn [forallb]; [reflexivity|].
  rewrite andb_true_iff. intros [Hq Hqs]. unfold deletions in *.
  cbn [flat_map]. rewrite (IH Hqs). now destruct q.
Qed.

Lemma deletions_app l1 l2 : deletions (l1 ++ l2) = deletions l1 ++ deletions l2.
Proof. unfold deletions. apply flat_map_app. Qed.

(** C8. Whatever the state of the database, a load stage first sends its
    deletions and only then its inserts; the tables it deletes from follow
    the order embeddings, descriptions, programs, institutions, disciplines,
    in which every table comes before the tables it refers to; and no
    deletion is refused for a foreign key, in any stage and in any sequence
    of stages. *)
Theorem deletes_precede_inserts input (w : World) :
  (forall a,
     let out := run_stage encode input a w in
     exists sent_now,
       trace (snd out) = trace w ++ sent_now
       /\ deletes_first sent_now = true
       /\ deletions sent_now = deleted_by a
       /\ subsequence (deleted_by a) reverse_dependency_order = true
       /\ forall t, fst out <> Raise (IntegrityError (ForeignKeyOnDelete t)))
  /\ (forall stages t,
        fst (run_stages encode input stages w)
        <> Raise (IntegrityError (ForeignKeyOnDelete t)))
  /\ (forall child parent,
        references child parent = true ->
        (position child reverse_dependency_order
         < position parent reverse_dependency_order)%nat).
Proof.
  split; [|split].
  - intros a out. subst out.
    destruct (run_stage_shape input a w) as [(qs & E & Hqs) Hr].
    eexists. split; [exact E|]. split; [|split; [|split; [|exact Hr]]].
    + apply deletes_first_app; [|exact Hqs]. now destruct a.
    + rewrite deletions_app, (deletions_quiet _ Hqs), app_nil_r. now destruct a.
    + now destruct a.
  - intros stages. revert w. unfold run_stages.
    induction stages as [|a stages IH]; intros w t; cbn [for_each].
    + discriminate.
    + unfold bind. destruct (run_stage_shape input a w) as [_ Hr].
      destruct (run_stage encode input a w) as [[[]|e] w1]; cbn [fst] in *.
      * apply IH.
      * apply Hr.
  - intros child parent H. destruct child, parent; try discriminate;
      cbn; lia.
Qed.

End Stages.



(** *** Reloading *)

Ltac run_deletes :=
  repeat (rewrite delete_bind by reflexivity); rewrite commit_bind.

Section Reload.

Context {Vec : Type}.
Variable encode : list str -> list Vec.

Abbreviation Session := (Session Vec).
Abbreviation World := (World Vec).
Abbreviation Database := (Database Vec).

Lemma respects_ret {S A} (I : S -> Prop) (R : S -> S -> Prop) (a : A) :
  respects I R (ret a).
Proof. split; [auto|]. intros s s' _ _ H. auto. Qed.

Lemma respects_bind {S A B} (I : S -> Prop) (R : S -> S -> Prop)
      (c : M S A) (k : A -> M S B) :
  respects I R c -> (forall a, respects I R (k a)) -> respects I R (bind c k).
Proof.
  intros [Hc1 Hc2] Hk. split.
  - intros s Hs. unfold bind. specialize (Hc1 s Hs).
    destruct (c s) as [[a|e] s1]; cbn [snd] in *; [|exact Hc1].
    now apply (proj1 (Hk a)).
  - intros s s' Hs Hs' HR. unfold bind.
    specialize (Hc2 s s' Hs Hs' HR).
    pose proof (Hc1 s Hs) as H1. pose proof (Hc1 s' Hs') as H1'.
    destruct (c s) as [[a|e] s1], (c s') as [[a'|e'] s1'];
      cbn [fst snd] in *; destruct Hc2 as [E HR1]; try discriminate.
    + injection E as <-. now apply (proj2 (Hk a)).
    + injection E as <-. auto.
Qed.

Lemma respects_for_each {S A} (I : S -> Prop) (R : S -> S -> Prop)
      (l : list A) (body : A -> M S unit) :
  (forall a, respects I R (body a)) -> respects I R (for_each l body).
Proof.
  intro H. induction l as [|a l IH]; cbn [for_each].
  - apply respects_ret.
  - apply respects_bind; [apply H|intros _; exact IH].
Qed.

(** **** Fresh ids *)

Lemma fresh_below_nil next : fresh_below [] next.
Proof. split; constructor. Qed.

Lemma fresh_below_mono ids next next' :
  (next <= next')%Z -> fresh_below ids next -> fresh_below ids next'.
Proof.
  intros Hle [Hnd Hlt]. split; [exact Hnd|].
  eapply Forall_impl; [|exact Hlt]. intros i Hi. cbn beta in *. lia.
Qed.

Lemma next_ids_length start n : List.length (next_ids start n) = n.
Proof. unfold next_ids. now rewrite length_map, length_seq. Qed.

Lemma next_ids_in start n i :
  In i (next_ids start n) <-> (start <= i < start + Z.of_nat n)%Z.
Proof.
  unfold next_ids. rewrite in_map_iff. split.
  - intros (k & <- & Hk). apply in_seq in Hk. lia.
  - intro H. exists (Z.to_nat (i - start)). split; [lia|].
    apply in_seq. lia.
Qed.

Lemma next_ids_nodup start n : NoDup (next_ids start n).
Proof.
  unfold next_ids. apply Finite.Injective_map_NoDup; [|apply seq_NoDup].
  intros a b H. lia.
Qed.

Lemma fresh_below_extend ids start n :
  fresh_below ids start ->
  fresh_below (ids ++ next_ids start n) (start + Z.of_nat n).
Proof.
  intros [Hnd Hlt]. rewrite Forall_forall in Hlt. split.
  - apply NoDup_app; [exact Hnd|apply next_ids_nodup|].
    intros i Hi Hi'. apply next_ids_in in Hi'. specialize (Hlt i Hi).
    cbn beta in Hlt. lia.
  - apply Forall_app. split.
    + apply Forall_forall. intros i Hi. specialize (Hlt i Hi).
      cbn beta in *. lia.
    + apply Forall_forall. intros i Hi. apply next_ids_in in Hi. lia.
Qed.

Lemma map_fst_combine {A B} (l : list A) (l' : list B) :
  List.length l = List.length l' -> map fst (combine l l') = l.
Proof.
  revert l'. induction l as [|a l IH]; intros [|b l'] H; try discriminate;
    cbn; [reflexivity|]. f_equal. apply IH. now injection H.
Qed.

Lemma map_snd_combine {A B} (l : list A) (l' : list B) :
  List.length l = List.length l' -> map snd (combine l l') = l'.
Proof.
  revert l'. induction l as [|a l IH]; intros [|b l'] H; try discriminate;
    cbn; [reflexivity|]. f_equal. apply IH. now injection H.
Qed.

Lemma map_of_snd_combine {A B C} (g : B -> C) (l : list A) (l' : list B) :
  List.length l = List.length l' ->
  map (fun ab => g (snd ab)) (combine l l') = map g l'.
Proof.
  intro H. rewrite <- (map_snd_combine l l' H) at 2. now rewrite map_map.
Qed.

Lemma existsb_of_map {A B} (f : B -> bool) (g : A -> B) l :
  existsb f (map g l) = existsb (fun a => f (g a)) l.
Proof.
  induction l as [|a l IH]; cbn; [reflexivity|]. now rewrite IH.
Qed.

(** **** Contents *)

Lemma contents_inv (db db' : Database) :
  contents db = contents db' ->
  disciplines db = disciplines db'
  /\ institutions db = institutions db'
  /\ programs db = programs db'
  /\ map description_data (program_descriptions db)
     = map description_data (program_descriptions db')
  /\ program_embeddings db = program_embeddings db'.
Proof. unfold contents. intros [= H1 H2 H3 H4 H5]. auto. Qed.

Lemma referenced_same t (db db' : Database) :
  contents db = contents db' -> referenced t db = referenced t db'.
Proof.
  intro H. apply contents_inv in H as (H1 & H2 & H3 & H4 & H5).
  destruct t; cbn [referenced]; rewrite <- ?H1, <- ?H2, <- ?H3, <- ?H5;
    try reflexivity.
  f_equal.
  pose proof (existsb_of_map
                (fun nd => mem (nd_program_id nd) (map prg_id (programs db)))
                description_data) as E.
  cbn beta in E. cbn [description_data nd_program_id] in E.
  now rewrite <- !E, H4.
Qed.

Lemma clear_same t (db db' : Database) :
  contents db = contents db' -> contents (clear t db) = contents (clear t db').
Proof.
  intro H. apply contents_inv in H as (H1 & H2 & H3 & H4 & H5).
  destruct t; unfold contents; cbn; congruence.
Qed.

Lemma clear_fresh t (db : Database) next :
  fresh_below (description_ids db) next ->
  fresh_below (description_ids (clear t db)) next.
Proof.
  intro H. destruct t; try exact H. apply fresh_below_nil.
Qed.

Lemma clear_fresh_e t (db : Database) next :
  fresh_below (embedding_ids db) next ->
  fresh_below (embedding_ids (clear t db)) next.
Proof.
  intro H. destruct t; try exact H. apply fresh_below_nil.
Qed.

(** **** The statements of a session *)

Ltac session_simpl :=
  cbn [committed working seqs sent send set_working fst snd
       program_descriptions_id_seq program_embeddings_id_seq
       disciplines institutions programs program_descriptions
       program_embeddings] in *.

Lemma delete_respects t : respects tidy same (delete (Vec := Vec) t).
Proof.
  split.
  - intros s [Hc Hw]. unfold delete. session_simpl.
    destruct (referenced t (working s)); unfold tidy; session_simpl.
    + auto.
    + split; [exact Hc|now apply clear_fresh].
  - intros s s' _ _ [Ec Ew]. unfold delete. session_simpl.
    rewrite (referenced_same t _ _ Ew).
    destruct (referenced t (working s')); unfold same; session_simpl.
    + auto.
    + split; [reflexivity|]. split; [exact Ec|now apply clear_same].
Qed.

Lemma commit_respects : respects tidy same (commit (Vec := Vec)).
Proof.
  split.
  - intros s [Hc Hw]. unfold commit, tidy. session_simpl. auto.
  - intros s s' _ _ [Ec Ew]. unfold commit, same. session_simpl. auto.
Qed.

Lemma commit_respects_e : respects tidy_e same_e (commit (Vec := Vec)).
Proof.
  split.
  - intros s ([Hc Hw] & He & Hwe). unfold commit, tidy_e, tidy.
    session_simpl. auto.
  - intros s s' _ _ [[Ec Ew] Es]. unfold commit, same_e, same.
    session_simpl. auto.
Qed.

Lemma add_all_disciplines_respects records :
  respects tidy same (add_all_disciplines (Vec := Vec) records).
Proof.
  split.
  - intros s [Hc Hw]. unfold add_all_disciplines. session_simpl.
    destruct (negb _); unfold tidy; session_simpl; auto.
  - intros s s' _ _ [Ec Ew]. unfold add_all_disciplines. session_simpl.
    pose proof (contents_inv _ _ Ew) as (H1 & H2 & H3 & H4 & H5).
    rewrite H1. destruct (negb _); unfold same; session_simpl.
    + auto.
    + split; [reflexivity|]. split; [exact Ec|].
      unfold contents. session_simpl. congruence.
Qed.

Lemma add_all_institutions_respects records :
  respects tidy same (add_all_institutions (Vec := Vec) records).
Proof.
  split.
  - intros s [Hc Hw]. unfold add_all_institutions. session_simpl.
    destruct (negb _); unfold tidy; session_simpl; auto.
  - intros s s' _ _ [Ec Ew]. unfold add_all_institutions. session_simpl.
    pose proof (contents_inv _ _ Ew) as (H1 & H2 & H3 & H4 & H5).
    rewrite H2. destruct (negb _); unfold same; session_simpl.
    + auto.
    + split; [reflexivity|]. split; [exact Ec|].
      unfold contents. session_simpl. congruence.
Qed.

Lemma add_all_programs_respects records :
  respects tidy same (add_all_programs (Vec := Vec) records).
Proof.
  split.
  - intros s [Hc Hw]. unfold add_all_programs. session_simpl.
    destruct (negb _); [|destruct (negb _)]; unfold tidy; session_simpl; auto.
  - intros s s' _ _ [Ec Ew]. unfold add_all_programs. session_simpl.
    pose proof (contents_inv _ _ Ew) as (H1 & H2 & H3 & H4 & H5).
    rewrite H1, H2, H3.
    destruct (negb _); [|destruct (negb _)]; unfold same; session_simpl.
    + auto.
    + auto.
    + split; [reflexivity|]. split; [exact Ec|].
      unfold contents. session_simpl. congruence.
Qed.

Lemma numbered_description_ids start (records : list NewDescription) :
  map dsc_id
      (map (fun ir => {| dsc_id := fst ir;
                         dsc_program_id := nd_program_id (snd ir);
                         dsc_section_name := nd_section_name (snd ir);
                         dsc_content := nd_content (snd ir) |})
           (combine (next_ids start (List.length records)) records))
  = next_ids start (List.length records).
Proof.
  rewrite map_map. cbn [dsc_id].
  apply map_fst_combine, next_ids_length.
Qed.

Lemma numbered_description_data start (records : list NewDescription) :
  map description_data
      (map (fun ir => {| dsc_id := fst ir;
                         dsc_program_id := nd_program_id (snd ir);
                         dsc_section_name := nd_section_name (snd ir);
                         dsc_content := nd_content (snd ir) |})
           (combine (next_ids start (List.length records)) records))
  = map (fun r => {| nd_program_id := nd_program_id r;
                     nd_section_name := nd_section_name r;
                     nd_content := nd_content r |}) records.
Proof.
  rewrite map_map. unfold description_data.
  cbn [dsc_program_id dsc_section_name dsc_content].
  apply (map_of_snd_combine
           (fun r => {| nd_program_id := nd_program_id r;
                        nd_section_name := nd_section_name r;
                        nd_content := nd_content r |})).
  apply next_ids_length.
Qed.

Lemma fresh_unique ids start n :
  fresh_below ids start -> is_unique (ids ++ next_ids start n) = true.
Proof.
  intro H. apply TransformFacts.is_unique_nodup.
  apply (fresh_below_extend ids start n H).
Qed.

Lemma add_all_descriptions_respects records :
  respects tidy same (add_all_descriptions (Vec := Vec) records).
Proof.
  split.
  - intros s [Hc Hw]. unfold add_all_descriptions. session_simpl.
    assert (Hle : (program_descriptions_id_seq (seqs s)
                   <= program_descriptions_id_seq (seqs s)
                      + Z.of_nat (List.length records))%Z) by lia.
    destruct (negb _); [|destruct (negb _)]; unfold tidy; session_simpl;
      try (split; eapply fresh_below_mono; eassumption).
    split; [eapply fresh_below_mono; eassumption|].
    unfold description_ids. session_simpl.
    rewrite map_app, numbered_description_ids.
    now apply fresh_below_extend.
  - intros s s' [_ Hw] [_ Hw'] [Ec Ew]. unfold add_all_descriptions.
    session_simpl.
    pose proof (contents_inv _ _ Ew) as (H1 & H2 & H3 & H4 & H5).
    rewrite H3.
    rewrite !map_app, !numbered_description_ids.
    rewrite (fresh_unique _ _ _ Hw), (fresh_unique _ _ _ Hw'). cbn [negb].
    destruct (negb _); unfold same; session_simpl.
    + auto.
    + split; [reflexivity|]. split; [exact Ec|].
      unfold contents. session_simpl.
      rewrite !map_app, !numbered_description_data. congruence.
Qed.

Lemma numbered_embedding_ids start (records : list (NewEmbedding Vec)) :
  map emb_id
      (map (fun ir => {| emb_id := fst ir;
                         emb_program_id := ne_program_id (snd ir);
                         emb_chunk_index := ne_chunk_index (snd ir);
                         emb_chunk_text := ne_chunk_text (snd ir);
                         emb_embedding := ne_embedding (snd ir) |})
           (combine (next_ids start (List.length records)) records))
  = next_ids start (List.length records).
Proof.
  rewrite map_map. cbn [emb_id].
  apply map_fst_combine, next_ids_length.
Qed.

Lemma add_all_embeddings_respects records :
  respects tidy_e same_e (add_all_embeddings (Vec := Vec) records).
Proof.
  split.
  - intros s ([Hc Hw] & Hce & Hwe). unfold add_all_embeddings. session_simpl.
    assert (Hle : (program_embeddings_id_seq (seqs s)
                   <= program_embeddings_id_seq (seqs s)
                      + Z.of_nat (List.length records))%Z) by lia.
    destruct (negb _); [|destruct (negb _)]; unfold tidy_e, tidy;
      session_simpl; (split; [split; assumption|]);
      try (split; eapply fresh_below_mono; eassumption).
    split; [eapply fresh_below_mono; eassumption|].
    unfold embedding_ids. session_simpl.
    rewrite map_app, numbered_embedding_ids.
    now apply fresh_below_extend.
  - intros s s' (_ & _ & Hw) (_ & _ & Hw') [[Ec Ew] Es].
    unfold add_all_embeddings. session_simpl.
    pose proof (contents_inv _ _ Ew) as (H1 & H2 & H3 & H4 & H5).
    rewrite H3.
    rewrite !map_app, !numbered_embedding_ids.
    rewrite (fresh_unique _ _ _ Hw), (fresh_unique _ _ _ Hw'). cbn [negb].
    destruct (negb _); unfold same_e, same; session_simpl.
    + split; [reflexivity|]. split; [split; assumption|]. now rewrite Es.
    + split; [reflexivity|]. split; [split; [assumption|]|now rewrite Es].
      unfold contents. session_simpl. rewrite Es. congruence.
Qed.

(** **** Stages *)

Lemma with_session_open (body : M Session unit) (w : World) :
  with_session body w
  = (fst (body (open_session w)),
     {| database := committed (snd (body (open_session w)));
        sequences := seqs (snd (body (open_session w)));
        trace := sent (snd (body (open_session w))) |}).
Proof.
  unfold with_session. fold (open_session w).
  now destruct (body (open_session w)).
Qed.

Lemma with_session_respects (body : M Session unit) :
  respects tidy same body -> respects tidy_w same_w (with_session body).
Proof.
  intros [Hp Ha]. split.
  - intros w Hw. rewrite with_session_open. unfold tidy_w. cbn [snd database sequences].
    apply (Hp (open_session w)). split; exact Hw.
  - intros w w' Hw Hw' E. rewrite !with_session_open. cbn [fst snd].
    destruct (Ha (open_session w) (open_session w')) as [Er [Ec _]].
    + split; exact Hw.
    + split; exact Hw'.
    + split; exact E.
    + split; [exact Er|exact Ec].
Qed.

Lemma with_session_respects_e (body : M Session unit) :
  respects tidy_e same_e body -> respects tidy_we same_we (with_session body).
Proof.
  intros [Hp Ha]. split.
  - intros w [Hw Hwe]. rewrite with_session_open.
    destruct (Hp (open_session w)) as ([Hc _] & Hce & _).
    + split; [split; exact Hw|split; exact Hwe].
    + split; [exact Hc|exact Hce].
  - intros w w' [Hw Hwe] [Hw' Hwe'] [E Es]. rewrite !with_session_open.
    cbn [fst snd].
    destruct (Ha (open_session w) (open_session w')) as [Er [[Ec _] Es']].
    + split; [split; exact Hw|split; exact Hwe].
    + split; [split; exact Hw'|split; exact Hwe'].
    + split; [split; exact E|exact Es].
    + split; [exact Er|]. split; [exact Ec|exact Es'].
Qed.

(** After its deletions a stage of load.py works on a session that no
    longer depends on what the tables held. *)
Lemma with_session_resets (body rest : M Session unit)
      (after : Session -> Session) :
  (forall s, body s = rest (after s)) ->
  (forall s, tidy (after s)) ->
  (forall s s', same (after s) (after s')) ->
  respects tidy same rest ->
  forall w w' : World,
    fst (with_session body w) = fst (with_session body w')
    /\ same_w (snd (with_session body w)) (snd (with_session body w'))
    /\ tidy_w (snd (with_session body w)).
Proof.
  intros Hbody Htidy Hsame [Hp Ha] w w'. rewrite !with_session_open, !Hbody.
  cbn [fst snd].
  destruct (Ha _ _ (Htidy (open_session w)) (Htidy (open_session w'))
               (Hsame _ _)) as [Er [Ec _]].
  split; [exact Er|]. split; [exact Ec|].
  apply (Hp _ (Htidy (open_session w))).
Qed.

Lemma db_disciplines_resets stg (w w' : World) :
  fst (db_disciplines stg w) = fst (db_disciplines stg w')
  /\ same_w (snd (db_disciplines stg w)) (snd (db_disciplines stg w'))
  /\ tidy_w (snd (db_disciplines stg w)).
Proof.
  unfold db_disciplines. eapply with_session_resets.
  - intro s. run_deletes. reflexivity.
  - intro s. split; apply fresh_below_nil.
  - intros s s'. split; reflexivity.
  - apply respects_bind; [apply add_all_disciplines_respects|].
    intros _. apply commit_respects.
Qed.

Lemma db_disciplines_respects stg :
  respects tidy_w same_w (db_disciplines (Vec := Vec) stg).
Proof.
  split.
  - intros w _. apply (db_disciplines_resets stg w w).
  - intros w w' _ _ _. destruct (db_disciplines_resets stg w w') as (H1 & H2 & _).
    auto.
Qed.

Ltac stage_respects :=
  apply with_session_respects;
  repeat (apply respects_bind; [apply delete_respects|intros _]);
  apply respects_bind; [apply commit_respects|intros _].

Lemma db_institutions_respects stg :
  respects tidy_w same_w (db_institutions (Vec := Vec) stg).
Proof.
  unfold db_institutions. stage_respects.
  apply respects_bind; [apply add_all_institutions_respects|].
  intros _. apply commit_respects.
Qed.

Lemma db_programs_respects stg :
  respects tidy_w same_w (db_programs (Vec := Vec) stg).
Proof.
  unfold db_programs. stage_respects.
  apply respects_bind; [apply add_all_programs_respects|].
  intros _. apply commit_respects.
Qed.

Lemma db_descriptions_respects stg :
  respects tidy_w same_w (db_descriptions (Vec := Vec) stg).
Proof.
  unfold db_descriptions. stage_respects.
  apply respects_for_each. intro i.
  apply respects_bind; [apply add_all_descriptions_respects|].
  intros _. apply commit_respects.
Qed.

Lemma db_embeddings_respects chunks :
  respects tidy_w same_w (db_embeddings encode chunks).
Proof.
  unfold db_embeddings.
  match goal with
  | |- context [with_session ?b] =>
      assert (Hloop : respects tidy_we same_we (with_session b))
  end.
  { apply with_session_respects_e. apply respects_for_each. intro i.
    apply respects_bind; [apply add_all_embeddings_respects|].
    intros _. apply commit_respects_e. }
  destruct Hloop as [Hp Ha].
  assert (Hre : forall w : World,
            tidy_w w -> tidy_we (snd (recreate_program_embeddings w))).
  { intros w Hw. unfold recreate_program_embeddings, tidy_we, tidy_w.
    cbn [snd database sequences program_descriptions_id_seq
         program_embeddings_id_seq].
    split; [exact Hw|apply fresh_below_nil]. }
  assert (Hre2 : forall w w' : World,
            same_w w w' ->
            same_we (snd (recreate_program_embeddings w))
                    (snd (recreate_program_embeddings w'))).
  { intros w w' E. unfold recreate_program_embeddings, same_we, same_w.
    cbn [snd database sequences program_embeddings_id_seq].
    split; [now apply clear_same|reflexivity]. }
  split.
  - intros w Hw. unfold bind. cbn [recreate_program_embeddings].
    specialize (Hp _ (Hre w Hw)). cbn [snd recreate_program_embeddings] in Hp.
    destruct (with_session _ _) as [[[]|e] w1]; cbn [snd] in *.
    + unfold create_vector_index. cbn [snd]. exact (proj1 Hp).
    + exact (proj1 Hp).
  - intros w w' Hw Hw' E. unfold bind. cbn [recreate_program_embeddings].
    specialize (Ha _ _ (Hre w Hw) (Hre w' Hw') (Hre2 w w' E)).
    cbn [snd recreate_program_embeddings] in Ha.
    destruct (with_session _ _) as [[[]|e] w1];
      destruct (with_session _ _) as [[[]|e'] w1']; cbn [fst snd] in *;
      destruct Ha as [Er [Es _]]; try discriminate.
    + unfold create_vector_index. cbn [fst snd]. split; [reflexivity|exact Es].
    + split; [exact Er|exact Es].
Qed.

Lemma run_stage_respects input a :
  respects tidy_w same_w (run_stage encode input a).
Proof.
  destruct a; cbn [run_stage].
  - apply db_disciplines_respects.
  - apply db_institutions_respects.
  - apply db_programs_respects.
  - apply db_descriptions_respects.
  - apply db_embeddings_respects.
Qed.

(** The outcome of a full load does not depend on what the tables held. *)
Lemma full_load_independent input (w w' : World) :
  fst (full_load encode input w) = fst (full_load encode input w')
  /\ contents (final (full_load encode input w))
     = contents (final (full_load encode input w')).
Proof.
  pose (rest := for_each
                  [DbInstitutions; DbPrograms; DbDescriptions; DbEmbeddings]
                  (run_stage encode input)).
  assert (Hrest : respects tidy_w same_w rest)
    by (apply respects_for_each, run_stage_respects).
  assert (E : forall w0 : World,
            full_load encode input w0
            = match db_disciplines (stg_disciplines input) w0 with
              | (Ok _, w1) => rest w1
              | (Raise e, w1) => (Raise e, w1)
              end) by reflexivity.
  rewrite !E. unfold final.
  destruct (db_disciplines_resets (stg_disciplines input) w w')
    as (Er & Es & Ht).
  destruct (db_disciplines_resets (stg_disciplines input) w' w)
    as (_ & _ & Ht').
  destruct (db_disciplines (stg_disciplines input) w) as [[[]|e] w1];
    destruct (db_disciplines (stg_disciplines input) w') as [[[]|e'] w1'];
    cbn [fst snd] in *; try discriminate; [|auto].
  exact (proj2 Hrest w1 w1' Ht Ht' Es).
Qed.

(** C9, amended. Running the full load a second time on the same staged
    input ends the same way as the first run and leaves every table with the
    same rows, and so the same row counts, except that the rows of
    program_descriptions carry new serial ids; the embeddings table is
    identical, ids included.  What a full load leaves does not depend on
    what the tables held before: each run replaces the rows, none
    accumulate. *)
Theorem reload_same_contents input (w : World) :
  let once := full_load encode input w in
  let twice := full_load encode input (snd once) in
  fst twice = fst once
  /\ contents (final twice) = contents (final once)
  /\ disciplines (final twice) = disciplines (final once)
  /\ institutions (final twice) = institutions (final once)
  /\ programs (final twice) = programs (final once)
  /\ map description_data (program_descriptions (final twice))
     = map description_data (program_descriptions (final once))
  /\ List.length (program_descriptions (final twice))
     = List.length (program_descriptions (final once))
  /\ program_embeddings (final twice) = program_embeddings (final once)
  /\ (forall w' : World,
        fst (full_load encode input w') = fst once
        /\ contents (final (full_load encode input w'))
           = contents (final once)).
Proof.
  intros once twice. subst once twice.
  destruct (full_load_independent input (snd (full_load encode input w)) w)
    as [Er Ec].
  pose proof (contents_inv _ _ Ec) as (H1 & H2 & H3 & H4 & H5).
  repeat (split; [assumption|]).
  split.
  - rewrite <- (length_map description_data), H4. apply length_map.
  - split; [exact H5|]. intro w'. apply full_load_independent.
Qed.

End Reload.

(** On the sample input both runs succeed and leave the staged rows: one
    discipline, one institution, one program, two descriptions and one
    embedding. *)
Lemma reload_same_contents_witness :
  let once := full_load sample_encode sample_staged empty_world in
  let twice := full_load sample_encode sample_staged (snd once) in
  fst once = Ok tt /\ fst twice = Ok tt
  /\ contents (final twice) = contents (final once)
  /\ c_disciplines (contents (final twice))
     = [ {| dis_id := 1; dis_name := lit "Anesthesiology" |} ]
  /\ c_descriptions (contents (final twice))
     = [ {| nd_program_id := 27447; nd_section_name := lit "program_name";
            nd_content := lit "Anesthesiology" |};
         {| nd_program_id := 27447; nd_section_name := lit "interviews";
            nd_content := lit "Virtual" |} ]
  /\ c_embeddings (contents (final twice))
     = [ {| emb_id := 1; emb_program_id := 27447; emb_chunk_index := 0;
            emb_chunk_text := lit "Approximate Quota";
            emb_embedding := [1%Z; 0%Z] |} ]
  /\ List.length (c_institutions (contents (final twice))) = 1%nat
  /\ List.length (c_programs (contents (final twice))) = 1%nat.
Proof.
  pose proof (reload_same_contents sample_encode sample_staged empty_world)
    as (Er & Ec & _).
  cbv zeta. split; [reflexivity|]. split; [reflexivity|].
  split; [exact Ec|]. repeat split; reflexivity.
Defined.

(** A reload is not identical down to the generated ids: the second run
    numbers the descriptions 3 and 4 where the first numbered them 1 and 2. *)
Lemma reload_renumbers_descriptions : ~ reload_is_identical.
Proof.
  intro H.
  specialize (H (list Z) sample_encode sample_staged empty_world).
  apply (f_equal (fun db => map dsc_id (program_descriptions db))) in H.
  vm_compute in H. discriminate.
Qed.

End LoadFacts.

(** ** More on retrieval *)

Module SearchMore.

Import Search Reading Invariants More.

Lemma sublist_app_skip {A} (sub l : list A) x :
  sublist sub l -> sublist sub (l ++ [x]).
Proof.
  induction 1; cbn.
  - apply sublist_skip. constructor.
  - now apply sublist_skip.
  - now apply sublist_keep.
Qed.

Lemma sublist_app_keep {A} (sub l : list A) x :
  sublist sub l -> sublist (sub ++ [x]) (l ++ [x]).
Proof.
  induction 1; cbn.
  - apply sublist_keep. constructor.
  - now apply sublist_skip.
  - now apply sublist_keep.
Qed.

Lemma sublist_length {A} (sub l : list A) :
  sublist sub l -> (List.length sub <= List.length l)%nat.
Proof. induction 1; cbn; lia. Qed.

Lemma sublist_in {A} (sub l : list A) a : sublist sub l -> In a sub -> In a l.
Proof.
  induction 1; cbn; [tauto| |]; intro H'.
  - right. auto.
  - destruct H' as [-> | H']; [now left|right; auto].
Qed.

Lemma sublist_sorted {A} (R : A -> A -> Prop) (sub l : list A) :
  sublist sub l -> StronglySorted R l -> StronglySorted R sub.
Proof.
  induction 1; intro S.
  - constructor.
  - apply StronglySorted_inv in S as [S _]. auto.
  - apply StronglySorted_inv in S as [S F]. constructor; [auto|].
    rewrite Forall_forall in *. intros b Hb. apply F.
    now apply (sublist_in sub l).
Qed.

(** The dict [seen] after the rows of [pre]: its values are made from a
    selection of the hits, in their order. *)
Lemma dedup_keeps_order hits : forall pre seen kept,
  map snd seen = map (fun h => result_of_row (select_row h)) kept ->
  sublist kept pre ->
  exists kept',
    map snd (fold_left dedup_step (map select_row hits) seen)
    = map (fun h => result_of_row (select_row h)) kept'
    /\ sublist kept' (pre ++ hits).
Proof.
  induction hits as [|h hits IH]; intros pre seen kept E S; cbn.
  - exists kept. now rewrite app_nil_r.
  - replace (pre ++ h :: hits) with ((pre ++ [h]) ++ hits)
      by now rewrite <- app_assoc.
    unfold dedup_step at 2.
    destruct (negb (has_key (row0 (select_row h)) seen)).
    + apply (IH (pre ++ [h]) _ (kept ++ [h])).
      * now rewrite !map_app, E.
      * now apply sublist_app_keep.
    + apply (IH (pre ++ [h]) _ kept); [exact E|].
      now apply sublist_app_skip.
Qed.

Section Ranking.

Variable Vec : Type.
Variable embed_query : str -> Vec.
Variable nearest_hits : Vec -> Z -> option str -> list Hit.

(** The results of [semantic_search] are made, one each, from a selection of
    the hits that keeps their order: the ranking of the database is the
    ranking of the results, ascending in distance when the hits are, and
    there are never more results than hits. *)
Theorem semantic_search_keeps_ranking q top_k stream_category :
  let hits :=
    nearest_hits (embed_query q) top_k (category_filter stream_category) in
  let response :=
    semantic_search Vec embed_query nearest_hits q top_k stream_category in
  exists kept,
    results response = map (fun h => result_of_row (select_row h)) kept
    /\ sublist kept hits
    /\ (ascending hits -> ascending kept)
    /\ (total response <= Z.of_nat (List.length hits))%Z.
Proof.
  intros hits response. subst response. unfold semantic_search.
  cbn [results total]. fold hits.
  destruct (dedup_keeps_order hits [] [] [] eq_refl sublist_nil)
    as (kept & E & S).
  cbn [app] in S. exists kept. unfold deduplicate. rewrite E.
  split; [reflexivity|]. split; [exact S|]. split.
  - intro H. exact (sublist_sorted _ _ _ S H).
  - rewrite length_map. pose proof (sublist_length _ _ S). lia.
Qed.

End Ranking.

Lemma infix_refl x : infix x x.
Proof. exists [], []. now rewrite app_nil_r. Qed.

Lemma infix_app_l pre part x : infix part x -> infix part (pre ++ x).
Proof.
  intros (a & b & ->). exists (pre ++ a), b. now rewrite <- app_assoc.
Qed.

Lemma infix_app_r post part x : infix part x -> infix part (x ++ post).
Proof.
  intros (a & b & ->). exists a, (b ++ post). now rewrite <- !app_assoc.
Qed.

Lemma infix_trans a b c : infix a b -> infix b c -> infix a c.
Proof.
  intros (p & q & ->) (p' & q' & ->). exists (p' ++ p), (q ++ q').
  now rewrite <- !app_assoc.
Qed.

Lemma infix_join sep p parts : In p parts -> infix p (join sep parts).
Proof.
  induction parts as [|a parts IH]; [intros []|].
  intro H. cbn [join]. destruct parts as [|b parts].
  - destruct H as [-> | []]. apply infix_refl.
  - destruct H as [-> | H].
    + apply infix_app_r, infix_refl.
    + apply infix_app_l, infix_app_l, IH, H.
Qed.

Lemma infix_context_part chunk name inst :
  infix chunk (context_part (chunk, name, inst))
  /\ infix name (context_part (chunk, name, inst))
  /\ infix inst (context_part (chunk, name, inst)).
Proof.
  unfold context_part. split; [|split].
  - do 6 apply infix_app_l. apply infix_refl.
  - apply infix_app_l, infix_app_r, infix_refl.
  - do 3 apply infix_app_l. apply infix_app_r, infix_refl.
Qed.

Lemma infix_prompt part context q :
  infix part context \/ infix part q ->
  infix part (RAG_PROMPT_format context q).
Proof.
  unfold RAG_PROMPT_format. intros [H | H].
  - apply infix_app_l, infix_app_r, H.
  - do 3 apply infix_app_l. apply infix_app_r, H.
Qed.

Section Answering.

Variable Vec : Type.
Variable embed_query : str -> Vec.
Variable nearest_chunks : Vec -> Z -> list (str * str * str).
Variable llm_invoke : str -> str + str.

(** Every way [question_answer] can end.  It returns a response, or raises
    an HTTPException with status 404, 503 or 500, and nothing else: 404 when
    nothing was retrieved; 503 when the model raised with a message that
    holds "Connection" or "refused"; 500 with that message after
    "LLM error: " when the model raised with another message.  A response
    holds the completion stripped, and one source line for every retrieved
    row: rows of one program are not merged. *)
Theorem question_answer_outcomes q top_k calls0 :
  let retrieved := nearest_chunks (embed_query q) top_k in
  let out :=
    fst (question_answer Vec embed_query nearest_chunks llm_invoke q top_k
                         calls0) in
  match retrieved, llm_invoke (prompt_of Vec embed_query nearest_chunks q top_k) with
  | [], _ =>
      out = Raise (HTTPException 404 (lit "No relevant program data found."))
  | _ :: _, inl text =>
      out = Ok {| qa_query := q;
                  answer := strip text;
                  source_chunks := map source_line retrieved;
                  num_sources := Z.of_nat (List.length retrieved) |}
  | _ :: _, inr msg =>
      if contains (lit "Connection") msg || contains (lit "refused") msg
      then exists detail, out = Raise (HTTPException 503 detail)
      else out = Raise (HTTPException 500 (lit "LLM error: " ++ msg))
  end.
Proof.
  intros retrieved out. subst retrieved out.
  unfold prompt_of, question_answer, bind, record_call, try_except, raise,
    ret.
  destruct (nearest_chunks (embed_query q) top_k) as [|row rows];
    [reflexivity|].
  destruct (llm_invoke _) as [text|msg]; cbn [exn_str].
  - cbn [fst]. now rewrite length_map.
  - destruct (contains (lit "Connection") msg || contains (lit "refused") msg);
      cbn [fst]; [eexists|]; reflexivity.
Qed.

(** When rows were retrieved, the one call of the model gets a prompt that
    holds the question and, for every retrieved row, the whole text of the
    chunk, the program name and the institution name. *)
Theorem question_answer_prompt_holds_rows q top_k calls0 :
  nearest_chunks (embed_query q) top_k <> [] ->
  snd (question_answer Vec embed_query nearest_chunks llm_invoke q top_k
                       calls0)
  = calls0 ++ [EmbedQuery q; SqlQuery top_k; LlmInvoke (prompt_of Vec embed_query nearest_chunks q top_k)]
  /\ infix q (prompt_of Vec embed_query nearest_chunks q top_k)
  /\ forall chunk name inst,
       In (chunk, name, inst) (nearest_chunks (embed_query q) top_k) ->
       infix chunk (prompt_of Vec embed_query nearest_chunks q top_k)
       /\ infix name (prompt_of Vec embed_query nearest_chunks q top_k)
       /\ infix inst (prompt_of Vec embed_query nearest_chunks q top_k).
Proof.
  intro Hne. split; [|split].
  - unfold prompt_of, question_answer, bind, record_call, try_except, raise,
      ret.
    destruct (nearest_chunks (embed_query q) top_k) as [|row rows];
      [now contradiction Hne|].
    destruct (llm_invoke _) as [text|msg]; cbn [exn_str].
    + cbn [snd]. now rewrite <- !app_assoc.
    + destruct (contains (lit "Connection") msg
                || contains (lit "refused") msg);
        cbn [snd]; now rewrite <- !app_assoc.
  - apply infix_prompt. right. apply infix_refl.
  - intros chunk name inst Hin.
    assert (J : infix (context_part (chunk, name, inst))
                  (join ([newline; newline] ++ lit "---" ++ [newline; newline])
                     (map context_part
                        (nearest_chunks (embed_query q) top_k)))).
    { apply infix_join. now apply (in_map context_part) in Hin. }
    destruct (infix_context_part chunk name inst) as (H1 & H2 & H3).
    unfold prompt_of.
    split; [|split]; apply infix_prompt; left;
      eapply infix_trans; eauto.
Qed.

End Answering.

(** Two chunks of one program, and a model that answers: the prompt holds
    both chunks. *)
Lemma question_answer_prompt_holds_rows_witness :
  infix (lit "Research block in year two.")
    (prompt_of unit (fun _ => tt) (fun _ _ => sample_chunks)
       (lit "Where is rural training offered?") 5).
Proof.
  refine (proj1 (proj2 (proj2
    (question_answer_prompt_holds_rows unit (fun _ => tt)
       (fun _ _ => sample_chunks) (fun _ => inl (lit "In Halifax."))
       (lit "Where is rural training offered?") 5 [] _))
    (lit "Research block in year two.") (lit "Family Medicine")
    (lit "Dalhousie University") _)).
  - discriminate.
  - right. left. reflexivity.
Defined.

End SearchMore.

(** ** More on the load stages *)

Module LoadMore.

Import Load Reading Invariants LoadFacts More.

(** *** Lists in batches *)

Lemma firstn_plus {A} n m (l : list A) :
  firstn (n + m) l = firstn n l ++ firstn m (skipn n l).
Proof.
  revert l. induction n as [|n IH]; intros [|a l]; cbn [Nat.add firstn skipn app];
    try reflexivity.
  - now rewrite firstn_nil.
  - now rewrite IH.
Qed.

Lemma slice_firstn {A} i b (l : list A) :
  slice i (i + b) l = firstn b (skipn i l).
Proof. unfold slice. now replace (i + b - i)%nat with b by lia. Qed.

Lemma for_each_map {S A B} (f : A -> B) (l : list A) (body : B -> M S unit) :
  for_each (map f l) body = for_each l (fun a => body (f a)).
Proof.
  induction l as [|a l IH]; cbn [map for_each]; [reflexivity|].
  now rewrite IH.
Qed.

Lemma for_each_app {S A} (l1 l2 : list A) (body : A -> M S unit) s :
  for_each (l1 ++ l2) body s = (for_each l1 body ;;; for_each l2 body) s.
Proof.
  revert s. induction l1 as [|a l1 IH]; intro s; cbn [app for_each].
  - reflexivity.
  - unfold bind in *. destruct (body a s) as [[[]|e] s1]; [|reflexivity].
    apply IH.
Qed.

Lemma batches_of_range {A} b (l : list A) k a :
  map (fun i => slice i (i + b) l) (map (fun j => (j * b)%nat) (seq a k))
  = batches k b (skipn (a * b) l).
Proof.
  revert a. induction k as [|k IH]; intro a; cbn [seq map batches];
    [reflexivity|].
  rewrite slice_firstn. f_equal. rewrite IH, skipn_skipn.
  reflexivity.
Qed.

Lemma concat_batches {A} k b (l : list A) :
  List.concat (batches k b l) = firstn (k * b) l.
Proof.
  revert l. induction k as [|k IH]; intro l; cbn [batches List.concat Nat.mul];
    [reflexivity|].
  now rewrite IH, firstn_plus.
Qed.

Lemma batches_plus {A} q r b (l : list A) :
  batches (q + r) b l = batches q b l ++ batches r b (skipn (q * b) l).
Proof.
  revert l. induction q as [|q IH]; intro l; cbn [Nat.add batches app Nat.mul];
    [reflexivity|].
  rewrite IH, skipn_skipn. now rewrite (Nat.add_comm b).
Qed.

Lemma ceil_covers n b : (0 < b)%nat -> (n <= (n + b - 1) / b * b)%nat.
Proof.
  intro Hb. pose proof (Nat.div_mod_eq (n + b - 1) b) as E.
  pose proof (Nat.mod_upper_bound (n + b - 1) b ltac:(lia)). nia.
Qed.

Lemma forallb_same {A} (f g : A -> bool) l :
  (forall a, f a = g a) -> forallb f l = forallb g l.
Proof.
  intro H. induction l as [|a l IH]; cbn [forallb]; [reflexivity|].
  now rewrite H, IH.
Qed.

Lemma first_index_none {A} (p : A -> bool) l :
  first_index p l = None -> forallb (fun a => negb (p a)) l = true.
Proof.
  induction l as [|a l IH]; cbn [first_index forallb]; [reflexivity|].
  destruct (p a); [discriminate|]. destruct (first_index p l); [discriminate|].
  intros _. now rewrite IH.
Qed.

Lemma first_index_some {A} (p : A -> bool) l i :
  first_index p l = Some i ->
  exists pre x post,
    l = pre ++ x :: post /\ List.length pre = i /\ p x = true
    /\ forallb (fun a => negb (p a)) pre = true.
Proof.
  revert i. induction l as [|a l IH]; intro i; cbn [first_index];
    [discriminate|].
  destruct (p a) eqn:E.
  - intros [= <-]. exists [], a, l. auto.
  - destruct (first_index p l) as [j|]; [|discriminate]. intros [= <-].
    destruct (IH j eq_refl) as (pre & x & post & -> & L & Hx & Hpre).
    exists (a :: pre), x, post. cbn [app List.length forallb]. rewrite E, Hpre.
    cbn. auto.
Qed.

Lemma first_index_map {A B} (p : B -> bool) (g : A -> B) l :
  first_index p (map g l) = first_index (fun a => p (g a)) l.
Proof.
  induction l as [|a l IH]; cbn [map first_index]; [reflexivity|].
  now rewrite IH.
Qed.

(** The batch that holds the first element with [p], and the batches before
    it. *)
Lemma batches_split_at {A} (p : A -> bool) l b k i :
  (0 < b)%nat -> (List.length l <= k * b)%nat ->
  first_index p l = Some i ->
  exists bad rest,
    batches k b l = batches (i / b) b l ++ bad :: rest
    /\ forallb (fun a => negb (p a)) (firstn (i / b * b) l) = true
    /\ forallb (fun a => negb (p a)) bad = false.
Proof.
  intros Hb Hk Hi.
  destruct (first_index_some p l i Hi) as (pre & x & post & -> & L & Hx & Hpre).
  rewrite length_app in Hk. cbn [List.length] in Hk.
  pose proof (Nat.div_mod_eq i b) as E.
  pose proof (Nat.mod_upper_bound i b ltac:(lia)) as Hm.
  set (q := (i / b)%nat) in *.
  assert (Hq : (q < k)%nat) by nia.
  replace k with (q + S (k - q - 1))%nat by lia.
  rewrite batches_plus. cbn [batches].
  eexists _, _. split; [reflexivity|]. split.
  - rewrite firstn_app. replace (q * b - List.length pre)%nat with 0%nat by nia.
    cbn [firstn]. rewrite app_nil_r.
    rewrite <- (firstn_skipn (q * b) pre), forallb_app in Hpre.
    now apply andb_true_iff in Hpre as [H _].
  - match goal with |- ?g = false => destruct g eqn:F end; [|reflexivity].
    rewrite forallb_forall in F. specialize (F x).
    rewrite Hx in F. cbn in F. symmetry. apply F.
    rewrite skipn_app. replace (q * b - List.length pre)%nat with 0%nat by nia.
    cbn [skipn]. rewrite firstn_app. apply in_or_app. right.
    rewrite length_skipn.
    replace (b - (List.length pre - q * b))%nat
      with (S (b - (List.length pre - q * b) - 1))%nat by nia.
    now left.
Qed.

Lemma next_ids_S start n :
  next_ids start (S n) = start :: next_ids (start + 1) n.
Proof.
  unfold next_ids. cbn [seq map]. f_equal; [f_equal; lia|].
  rewrite <- seq_shift, map_map. apply map_ext. intro i. lia.
Qed.

Lemma next_ids_app start n m :
  next_ids start (n + m)
  = next_ids start n ++ next_ids (start + Z.of_nat n) m.
Proof.
  revert start. induction n as [|n IH]; intro start.
  - cbn [Nat.add]. unfold next_ids at 2. cbn [seq map app]. f_equal. cbn. lia.
  - cbn [Nat.add]. rewrite !next_ids_S, IH. cbn [app]. do 3 f_equal. lia.
Qed.

Lemma combine_app_same {A B} (l1 l2 : list A) (r1 r2 : list B) :
  List.length l1 = List.length r1 ->
  combine (l1 ++ l2) (r1 ++ r2) = combine l1 r1 ++ combine l2 r2.
Proof.
  revert r1. induction l1 as [|a l1 IH]; intros [|b r1] H; try discriminate;
    cbn [app combine]; [reflexivity|].
  f_equal. apply IH. now injection H.
Qed.


Lemma range_loop {S A} b (l : list A) (body : list A -> M S unit) n :
  for_each (range_step n b) (fun i => body (slice i (i + b) l))
  = for_each (batches ((n + b - 1) / b) b l) body.
Proof.
  rewrite <- (for_each_map (fun i => slice i (i + b) l)). unfold range_step.
  now rewrite batches_of_range.
Qed.


Lemma for_each_same {S A} (l : list A) (f g : A -> M S unit) :
  (forall a s, f a s = g a s) -> forall s, for_each l f s = for_each l g s.
Proof.
  intro H. induction l as [|a l IH]; intro s; cbn [for_each];
    [reflexivity|].
  unfold bind. rewrite H. destruct (g a s) as [[[]|e] s1]; [apply IH|].
  reflexivity.
Qed.

Lemma combine_skipn_both {A B} n (l : list A) (r : list B) :
  combine (skipn n l) (skipn n r) = skipn n (combine l r).
Proof.
  revert l r. induction n as [|n IH]; intros l r; [reflexivity|].
  destruct l as [|a l]; [reflexivity|]. destruct r as [|b r].
  - cbn [skipn combine]. now rewrite combine_nil.
  - cbn [skipn combine]. apply IH.
Qed.

Lemma combine_firstn_both {A B} n (l : list A) (r : list B) :
  combine (firstn n l) (firstn n r) = firstn n (combine l r).
Proof.
  revert l r. induction n as [|n IH]; intros l r; [reflexivity|].
  destruct l as [|a l]; [reflexivity|]. destruct r as [|b r]; [reflexivity|].
  cbn [firstn combine]. now rewrite IH.
Qed.

Lemma combine_slice {A B} i j (l : list A) (r : list B) :
  combine (slice i j l) (slice i j r) = slice i j (combine l r).
Proof.
  unfold slice. now rewrite combine_firstn_both, combine_skipn_both.
Qed.

Lemma batches_map {A B} (f : A -> B) k b (l : list A) :
  map (map f) (batches k b l) = batches k b (map f l).
Proof.
  revert l. induction k as [|k IH]; intro l; cbn [batches map];
    [reflexivity|].
  now rewrite IH, firstn_map, skipn_map.
Qed.

Lemma combine_length_le {A B} (l : list A) (r : list B) :
  (List.length (combine l r) <= List.length l)%nat.
Proof. rewrite length_combine. lia. Qed.


Section Replace.

Context {Vec : Type}.

Abbreviation World := (World Vec).

(** *** Disciplines, institutions, programs *)





Lemma forallb_of_map {A B} (f : B -> bool) (g : A -> B) l :
  forallb f (map g l) = forallb (fun a => f (g a)) l.
Proof.
  induction l as [|a l IH]; cbn; [reflexivity|]. now rewrite IH.
Qed.



End Replace.


(** *** Descriptions and embeddings, batch by batch *)

Section Loops.

Context {Vec : Type}.

Abbreviation Session := (Session Vec).
Abbreviation World := (World Vec).

Lemma number_descriptions_app start x y :
  number_descriptions start (x ++ y)
  = number_descriptions start x
    ++ number_descriptions (start + Z.of_nat (List.length x)) y.
Proof.
  unfold number_descriptions.
  rewrite length_app, next_ids_app, combine_app_same, map_app;
    [reflexivity|apply next_ids_length].
Qed.

Lemma number_embeddings_app start (x y : list (NewEmbedding Vec)) :
  number_embeddings start (x ++ y)
  = number_embeddings start x
    ++ number_embeddings (start + Z.of_nat (List.length x)) y.
Proof.
  unfold number_embeddings.
  rewrite length_app, next_ids_app, combine_app_same, map_app;
    [reflexivity|apply next_ids_length].
Qed.

(** One batch of descriptions that all belong to known programs. *)
Lemma descriptions_batch_ok batch (s : Session) :
  forallb (fun r => known_program (working s) (nd_program_id r)) batch = true ->
  fresh_below (description_ids (working s))
              (program_descriptions_id_seq (seqs s)) ->
  let db :=
    set_descriptions (working s)
      (program_descriptions (working s)
       ++ number_descriptions (program_descriptions_id_seq (seqs s)) batch) in
  (add_all_descriptions batch ;;; commit) s
  = (Ok tt,
     {| committed := db; working := db;
        seqs := {| program_descriptions_id_seq :=
                     (program_descriptions_id_seq (seqs s)
                      + Z.of_nat (List.length batch))%Z;
                   program_embeddings_id_seq :=
                     program_embeddings_id_seq (seqs s) |};
        sent := (sent s ++ [Insert ProgramDescriptions (List.length batch)])
                ++ [Commit] |}).
Proof.
  intros Hk Hf db. unfold bind, add_all_descriptions, commit.
  cbn [working send sent seqs committed].
  unfold known_program in Hk. rewrite Hk. cbn [negb].
  rewrite map_app, numbered_description_ids.
  unfold description_ids in Hf. rewrite (fresh_unique _ _ _ Hf). cbn [negb].
  reflexivity.
Qed.

(** One batch with a description of an unknown program: nothing of it is
    kept. *)
Lemma descriptions_batch_refused batch (s : Session) :
  forallb (fun r => known_program (working s) (nd_program_id r)) batch = false ->
  exists s',
    (add_all_descriptions batch ;;; commit) s
    = (Raise (IntegrityError (ForeignKeyOnInsert ProgramDescriptions)), s')
    /\ committed s' = committed s.
Proof.
  intros Hk. unfold bind, add_all_descriptions, commit.
  cbn [working send sent seqs committed].
  unfold known_program in Hk. rewrite Hk. cbn [negb].
  eexists. split; reflexivity.
Qed.

Lemma descriptions_loop_ok bs : forall s : Session,
  committed s = working s ->
  fresh_below (description_ids (working s))
              (program_descriptions_id_seq (seqs s)) ->
  forallb (fun r => known_program (working s) (nd_program_id r))
          (List.concat bs) = true ->
  exists s',
    for_each bs (fun batch => add_all_descriptions batch ;;; commit) s
    = (Ok tt, s')
    /\ committed s' = working s'
    /\ working s'
       = set_descriptions (working s)
           (program_descriptions (working s)
            ++ number_descriptions (program_descriptions_id_seq (seqs s))
                 (List.concat bs))
    /\ seqs s'
       = {| program_descriptions_id_seq :=
              (program_descriptions_id_seq (seqs s)
               + Z.of_nat (List.length (List.concat bs)))%Z;
            program_embeddings_id_seq := program_embeddings_id_seq (seqs s) |}
    /\ fresh_below (description_ids (working s'))
                   (program_descriptions_id_seq (seqs s')).
Proof.
  induction bs as [|batch bs IH]; intros s Hc Hf Hk.
  - exists s. cbn [for_each List.concat List.length]. unfold ret.
    split; [reflexivity|]. split; [exact Hc|]. split; [|split; [|exact Hf]].
    + unfold number_descriptions. cbn. rewrite app_nil_r.
      now destruct (working s).
    + destruct (seqs s) as [a b]. cbn. f_equal. lia.
  - cbn [List.concat] in Hk. rewrite forallb_app in Hk.
    apply andb_true_iff in Hk as [Hb Hbs].
    cbn [for_each]. unfold bind at 1.
    rewrite (descriptions_batch_ok batch s Hb Hf).
    match goal with |- context [for_each bs _ ?s1] => set (s1' := s1) end.
    destruct (IH s1') as (s' & E & Hc' & Hw' & Hs' & Hf').
    + reflexivity.
    + subst s1'. cbn [working seqs program_descriptions_id_seq].
      unfold description_ids, set_descriptions. cbn [program_descriptions].
      rewrite map_app. unfold number_descriptions.
      rewrite numbered_description_ids. now apply fresh_below_extend.
    + exact Hbs.
    + exists s'. split; [exact E|]. split; [exact Hc'|].
      split; [|split; [|exact Hf']].
      * rewrite Hw'. subst s1'.
        cbn [working seqs program_descriptions_id_seq List.concat].
        unfold set_descriptions.
        cbn [disciplines institutions programs program_descriptions
             program_embeddings].
        now rewrite number_descriptions_app, app_assoc.
      * rewrite Hs'. subst s1'.
        cbn [seqs program_descriptions_id_seq program_embeddings_id_seq
             List.concat].
        rewrite length_app. f_equal. lia.
Qed.

End Loops.

Section Stage.

Context {Vec : Type}.

Abbreviation Session := (Session Vec).
Abbreviation World := (World Vec).

Lemma db_descriptions_run sections (w : World) :
  let out := db_descriptions sections w in
  let start := program_descriptions_id_seq (sequences w) in
  let records := map description_of sections in
  match first_index
          (fun r => negb (known_program (database w) (Transform.program_id r)))
          sections with
  | None =>
      fst out = Ok tt
      /\ final out
         = set_descriptions (database w) (number_descriptions start records)
      /\ sequences (snd out)
         = {| program_descriptions_id_seq :=
                (start + Z.of_nat (List.length sections))%Z;
              program_embeddings_id_seq :=
                program_embeddings_id_seq (sequences w) |}
  | Some i =>
      fst out = Raise (IntegrityError (ForeignKeyOnInsert ProgramDescriptions))
      /\ final out
         = set_descriptions (database w)
             (number_descriptions start (firstn (i / 1000 * 1000) records))
  end.
Proof.
  cbn zeta. unfold final, db_descriptions. rewrite with_session_open.
  run_deletes.
  change (map _ sections) with (map (description_of) sections).
  set (records := map description_of sections).
  rewrite (range_loop 1000 records
             (fun batch => add_all_descriptions batch ;;; commit)).
  match goal with |- context [for_each _ _ ?s0] => set (s1 := s0) end.
  set (k := ((List.length records + 1000 - 1) / 1000)%nat).
  assert (Hcov : (List.length records <= k * 1000)%nat)
    by (apply ceil_covers; lia).
  assert (Hfresh : fresh_below (description_ids (working s1))
                     (program_descriptions_id_seq (seqs s1)))
    by apply fresh_below_nil.
  pose proof (first_index_map
                (fun r => negb (known_program (working s1) (nd_program_id r)))
                description_of sections) as Emap.
  fold records in Emap.
  change (first_index _ sections)
    with (first_index
            (fun r => negb (known_program (database w)
                                          (Transform.program_id r)))
            sections) in Emap.
  destruct (first_index _ sections) as [i|].
  - destruct (batches_split_at _ records 1000 k i ltac:(lia) Hcov Emap)
      as (bad & rest & Eb & Hgood & Hbad).
    destruct (descriptions_loop_ok (batches (i / 1000) 1000 records) s1
                eq_refl Hfresh) as (s2 & E2 & Hc2 & Hw2 & Hs2 & Hf2).
    { rewrite concat_batches.
      rewrite <- Hgood. apply forallb_same.
      intro r. now rewrite negb_involutive. }
    destruct (descriptions_batch_refused bad s2) as (s3 & E3 & Hc3).
    { rewrite <- Hbad. rewrite Hw2. apply forallb_same.
      intro r. now rewrite negb_involutive. }
    assert (Erun :
      for_each (batches k 1000 records)
        (fun batch => add_all_descriptions batch ;;; commit) s1
      = (Raise (IntegrityError (ForeignKeyOnInsert ProgramDescriptions)), s3)).
    { rewrite Eb, for_each_app. unfold bind at 1. rewrite E2.
      cbn [for_each]. unfold bind at 1. now rewrite E3. }
    rewrite Erun. cbn [fst snd database]. split; [reflexivity|].
    rewrite Hc3, Hc2, Hw2, concat_batches. reflexivity.
  - pose proof (first_index_none _ _ Emap) as Hall.
    destruct (descriptions_loop_ok (batches k 1000 records) s1
                eq_refl Hfresh) as (s2 & E2 & Hc2 & Hw2 & Hs2 & Hf2).
    { rewrite concat_batches, firstn_all2 by exact Hcov.
      rewrite <- Hall. apply forallb_same.
      intro r. now rewrite negb_involutive. }
    rewrite E2. cbn [fst snd database sequences]. split; [reflexivity|].
    rewrite Hc2, Hw2, Hs2, concat_batches, firstn_all2 by exact Hcov.
    split; [reflexivity|]. subst records. now rewrite length_map.
Qed.

End Stage.

Section Embeddings.

Context {Vec : Type}.
Variable encode : list str -> list Vec.

Abbreviation Session := (Session Vec).
Abbreviation World := (World Vec).

Lemma embeddings_batch_ok batch (s : Session) :
  forallb (fun r => known_program (working s) (ne_program_id r)) batch = true ->
  fresh_below (embedding_ids (working s))
              (program_embeddings_id_seq (seqs s)) ->
  let db :=
    set_embeddings (working s)
      (program_embeddings (working s)
       ++ number_embeddings (program_embeddings_id_seq (seqs s)) batch) in
  (add_all_embeddings batch ;;; commit) s
  = (Ok tt,
     {| committed := db; working := db;
        seqs := {| program_descriptions_id_seq :=
                     program_descriptions_id_seq (seqs s);
                   program_embeddings_id_seq :=
                     (program_embeddings_id_seq (seqs s)
                      + Z.of_nat (List.length batch))%Z |};
        sent := (sent s ++ [Insert ProgramEmbeddings (List.length batch)])
                ++ [Commit] |}).
Proof.
  intros Hk Hf db. unfold bind, add_all_embeddings, commit.
  cbn [working send sent seqs committed].
  unfold known_program in Hk. rewrite Hk. cbn [negb].
  rewrite map_app, numbered_embedding_ids.
  unfold embedding_ids in Hf. rewrite (fresh_unique _ _ _ Hf). cbn [negb].
  reflexivity.
Qed.

Lemma embeddings_batch_refused batch (s : Session) :
  forallb (fun r => known_program (working s) (ne_program_id r)) batch = false ->
  exists s',
    (add_all_embeddings batch ;;; commit) s
    = (Raise (IntegrityError (ForeignKeyOnInsert ProgramEmbeddings)), s')
    /\ committed s' = committed s.
Proof.
  intros Hk. unfold bind, add_all_embeddings, commit.
  cbn [working send sent seqs committed].
  unfold known_program in Hk. rewrite Hk. cbn [negb].
  eexists. split; reflexivity.
Qed.

Lemma embeddings_loop_ok bs : forall s : Session,
  committed s = working s ->
  fresh_below (embedding_ids (working s))
              (program_embeddings_id_seq (seqs s)) ->
  forallb (fun r => known_program (working s) (ne_program_id r))
          (List.concat bs) = true ->
  exists s',
    for_each bs (fun batch => add_all_embeddings batch ;;; commit) s
    = (Ok tt, s')
    /\ committed s' = working s'
    /\ working s'
       = set_embeddings (working s)
           (program_embeddings (working s)
            ++ number_embeddings (program_embeddings_id_seq (seqs s))
                 (List.concat bs))
    /\ seqs s'
       = {| program_descriptions_id_seq := program_descriptions_id_seq (seqs s);
            program_embeddings_id_seq :=
              (program_embeddings_id_seq (seqs s)
               + Z.of_nat (List.length (List.concat bs)))%Z |}
    /\ fresh_below (embedding_ids (working s'))
                   (program_embeddings_id_seq (seqs s')).
Proof.
  induction bs as [|batch bs IH]; intros s Hc Hf Hk.
  - exists s. cbn [for_each List.concat List.length]. unfold ret.
    split; [reflexivity|]. split; [exact Hc|]. split; [|split; [|exact Hf]].
    + unfold number_embeddings. cbn. rewrite app_nil_r.
      now destruct (working s).
    + destruct (seqs s) as [a b]. cbn. f_equal. lia.
  - cbn [List.concat] in Hk. rewrite forallb_app in Hk.
    apply andb_true_iff in Hk as [Hb Hbs].
    cbn [for_each]. unfold bind at 1.
    rewrite (embeddings_batch_ok batch s Hb Hf).
    match goal with |- context [for_each bs _ ?s1] => set (s1' := s1) end.
    destruct (IH s1') as (s' & E & Hc' & Hw' & Hs' & Hf').
    + reflexivity.
    + subst s1'. cbn [working seqs program_embeddings_id_seq].
      unfold embedding_ids, set_embeddings. cbn [program_embeddings].
      rewrite map_app. unfold number_embeddings.
      rewrite numbered_embedding_ids. now apply fresh_below_extend.
    + exact Hbs.
    + exists s'. split; [exact E|]. split; [exact Hc'|].
      split; [|split; [|exact Hf']].
      * rewrite Hw'. subst s1'.
        cbn [working seqs program_embeddings_id_seq List.concat].
        unfold set_embeddings.
        cbn [disciplines institutions programs program_descriptions
             program_embeddings].
        now rewrite number_embeddings_app, app_assoc.
      * rewrite Hs'. subst s1'.
        cbn [seqs program_descriptions_id_seq program_embeddings_id_seq
             List.concat].
        rewrite length_app. f_equal. lia.
Qed.

Lemma db_embeddings_run chunks (w : World) :
  let out := db_embeddings encode chunks w in
  let records :=
    map embedding_of (combine chunks (encode (map chunk_text chunks))) in
  match first_index
          (fun r => negb (known_program (database w) (ne_program_id r)))
          records with
  | None =>
      fst out = Ok tt
      /\ final out = set_embeddings (database w) (number_embeddings 1 records)
      /\ sequences (snd out)
         = {| program_descriptions_id_seq :=
                program_descriptions_id_seq (sequences w);
              program_embeddings_id_seq :=
                (1 + Z.of_nat (List.length records))%Z |}
  | Some i =>
      fst out = Raise (IntegrityError (ForeignKeyOnInsert ProgramEmbeddings))
      /\ final out
         = set_embeddings (database w)
             (number_embeddings 1 (firstn (i / 500 * 500) records))
  end.
Proof.
  cbn zeta.
  set (records :=
         map embedding_of (combine chunks (encode (map chunk_text chunks)))).
  set (k := ((List.length chunks + 500 - 1) / 500)%nat).
  set (w1 := snd (recreate_program_embeddings w)).
  set (s1 := open_session w1).
  assert (Eloop : forall s,
    for_each (range_step (List.length chunks) 500)
      (fun i =>
         let batch_chunks := slice i (i + 500) chunks in
         let batch_embeddings :=
           slice i (i + 500) (encode (map chunk_text chunks)) in
         let records :=
           map (fun ce => {| ne_program_id := chunk_program_id (fst ce);
                             ne_chunk_index := chunk_index (fst ce);
                             ne_chunk_text := chunk_text (fst ce);
                             ne_embedding := snd ce |})
               (combine batch_chunks batch_embeddings) in
         add_all_embeddings records ;;; commit) s
    = for_each (batches k 500 records)
        (fun batch => add_all_embeddings batch ;;; commit) s).
  { intro s.
    rewrite (for_each_same _ _
               (fun i =>
                  (fun batch =>
                     add_all_embeddings (map embedding_of batch) ;;; commit)
                    (slice i (i + 500)
                       (combine chunks (encode (map chunk_text chunks))))))
      by (intros i s'; cbn zeta beta; now rewrite combine_slice).
    rewrite (range_loop 500 _
               (fun batch =>
                  add_all_embeddings (map embedding_of batch) ;;; commit)).
    rewrite <- (for_each_map (map embedding_of)
                  (batches _ 500 _)
                  (fun batch => add_all_embeddings batch ;;; commit)).
    now rewrite batches_map. }
  assert (Hcov : (List.length records <= k * 500)%nat).
  { subst records. rewrite length_map.
    pose proof (combine_length_le chunks (encode (map chunk_text chunks))).
    pose proof (ceil_covers (List.length chunks) 500 ltac:(lia)).
    subst k. lia. }
  assert (Hfresh : fresh_below (embedding_ids (working s1))
                     (program_embeddings_id_seq (seqs s1)))
    by apply fresh_below_nil.
  assert (Eout :
    db_embeddings encode chunks w
    = let (r, s') :=
        for_each (batches k 500 records)
          (fun batch => add_all_embeddings batch ;;; commit) s1 in
      let w2 := {| database := committed s'; sequences := seqs s';
                   trace := sent s' |} in
      match r with
      | Ok _ => create_vector_index w2
      | Raise e => (Raise e, w2)
      end).
  { unfold db_embeddings. unfold bind at 1.
    change (recreate_program_embeddings w) with (Ok tt, w1). cbv iota.
    unfold bind at 1. rewrite with_session_open. fold s1. rewrite Eloop.
    now destruct (for_each (batches k 500 records) _ s1) as [[[]|e] s']. }
  unfold final. rewrite Eout. clear Eout Eloop.
  change (known_program (database w)) with (known_program (working s1)).
  destruct (first_index _ records) as [i|] eqn:Ei.
  - destruct (batches_split_at _ records 500 k i ltac:(lia) Hcov Ei)
      as (bad & rest & Eb & Hgood & Hbad).
    destruct (embeddings_loop_ok (batches (i / 500) 500 records) s1
                eq_refl Hfresh) as (s2 & E2 & Hc2 & Hw2 & Hs2 & Hf2).
    { rewrite concat_batches.
      rewrite <- Hgood. apply forallb_same.
      intro r. now rewrite negb_involutive. }
    destruct (embeddings_batch_refused bad s2) as (s3 & E3 & Hc3).
    { rewrite <- Hbad. rewrite Hw2. apply forallb_same.
      intro r. now rewrite negb_involutive. }
    assert (Erun :
      for_each (batches k 500 records)
        (fun batch => add_all_embeddings batch ;;; commit) s1
      = (Raise (IntegrityError (ForeignKeyOnInsert ProgramEmbeddings)), s3)).
    { rewrite Eb, for_each_app. unfold bind at 1. rewrite E2.
      cbn [for_each]. unfold bind at 1. now rewrite E3. }
    rewrite Erun. cbn [fst snd database]. split; [reflexivity|].
    rewrite Hc3, Hc2, Hw2, concat_batches. reflexivity.
  - pose proof (first_index_none _ _ Ei) as Hall.
    destruct (embeddings_loop_ok (batches k 500 records) s1
                eq_refl Hfresh) as (s2 & E2 & Hc2 & Hw2 & Hs2 & Hf2).
    { rewrite concat_batches, firstn_all2 by exact Hcov.
      rewrite <- Hall. apply forallb_same.
      intro r. now rewrite negb_involutive. }
    rewrite E2. unfold create_vector_index.
    cbn [fst snd database sequences]. split; [reflexivity|].
    rewrite Hc2, Hw2, Hs2, concat_batches, firstn_all2 by exact Hcov.
    split; reflexivity.
Qed.

End Embeddings.


(** *** What a stage leaves behind *)


Section Outcomes.

Context {Vec : Type}.
Variable encode : list str -> list Vec.

Abbreviation World := (World Vec).



(** [db_descriptions] touches the descriptions table only, and commits it
    batch by batch.  When every staged section belongs to a program of the
    table, the table holds the staged sections in their order, numbered
    from the next value of the sequence.  When the section at position [i]
    is the first of an unknown program, the stage raises the foreign-key
    violation and the table keeps the sections of the batches before that
    one, the first [1000 * (i / 1000)]: neither what it held before nor the
    whole frame. *)
Theorem db_descriptions_outcome sections (w : World) :
  let out := db_descriptions sections w in
  let start := program_descriptions_id_seq (sequences w) in
  let stored :=
    match first_index
            (fun r => negb (known_program (database w)
                                          (Transform.program_id r)))
            sections with
    | None => sections
    | Some i => firstn (i / 1000 * 1000) sections
    end in
  final out
  = set_descriptions (database w)
      (number_descriptions start (map description_of stored))
  /\ match first_index
             (fun r => negb (known_program (database w)
                                           (Transform.program_id r)))
             sections with
     | None => fst out = Ok tt
     | Some _ =>
         fst out
         = Raise (IntegrityError (ForeignKeyOnInsert ProgramDescriptions))
     end.
Proof.
  pose proof (db_descriptions_run sections w) as H. cbn zeta in *.
  destruct (first_index _ sections) as [i|].
  - destruct H as [E F]. rewrite <- firstn_map. auto.
  - destruct H as (E & F & _). auto.
Qed.

(** [db_embeddings] recreates the embeddings table and touches no other.
    Chunks are paired with the vectors of the encoder in order, as many as
    both lists have.  When each pair belongs to a program of the table, the
    table holds one row per pair, in order, numbered from 1.  When the pair
    at position [i] is the first of an unknown program, the stage raises
    the foreign-key violation and the table keeps the rows of the batches
    before that one, the first [500 * (i / 500)]. *)
Theorem db_embeddings_outcome chunks (w : World) :
  let out := db_embeddings encode chunks w in
  let records :=
    map embedding_of (combine chunks (encode (map chunk_text chunks))) in
  let unknown :=
    first_index
      (fun r => negb (known_program (database w) (ne_program_id r)))
      records in
  final out
  = set_embeddings (database w)
      (number_embeddings 1
         match unknown with
         | None => records
         | Some i => firstn (i / 500 * 500) records
         end)
  /\ match unknown with
     | None => fst out = Ok tt
     | Some _ =>
         fst out
         = Raise (IntegrityError (ForeignKeyOnInsert ProgramEmbeddings))
     end.
Proof.
  pose proof (db_embeddings_run encode chunks w) as H. cbn zeta in *.
  destruct (first_index _ _) as [i|].
  - destruct H as [E F]. auto.
  - destruct H as (E & F & _). auto.
Qed.

End Outcomes.

Section Pipeline.

Context {Vec : Type}.
Variable encode : list str -> list Vec.

Abbreviation World := (World Vec).


End Pipeline.

End LoadMore.

(** ** The other assets *)

Module AssetsFacts.

Import Str Py Load Transform Builtins Assets.
Import Reading Invariants More.

(** *** Columns *)

Lemma present_all {A} (col : list (option A)) :
  forallb notna col = true -> map Some (present col) = col.
Proof.
  unfold present.
  induction col as [|[a|] col IH]; cbn [forallb notna flat_map map app andb];
    [reflexivity| |discriminate].
  intro H. now rewrite IH.
Qed.

Lemma present_length {A} (col : list (option A)) :
  forallb notna col = true -> List.length (present col) = List.length col.
Proof.
  intro H. rewrite <- (length_map Some). now rewrite present_all.
Qed.


Section Composition.

Context {Vec : Type}.



End Composition.



(** *** Entry ids *)

Lemma split_nonempty sep x : split sep x <> [].
Proof.
  destruct x as [|c x]; cbn [split]; [discriminate|].
  destruct (Ascii.eqb c sep); [discriminate|].
  destruct (split sep x); discriminate.
Qed.

Lemma split_no_sep sep x : ~ In sep x -> split sep x = [x].
Proof.
  induction x as [|c x IH]; intro H; cbn [split]; [reflexivity|].
  destruct (Ascii.eqb_spec c sep) as [->|_]; [exfalso; apply H; now left|].
  rewrite IH; [reflexivity|]. intro Hin. apply H. now right.
Qed.

Lemma split_app_sep sep pre x :
  ~ In sep pre -> split sep (pre ++ sep :: x) = pre :: split sep x.
Proof.
  induction pre as [|c pre IH]; intro H; cbn [app split].
  - now rewrite Ascii.eqb_refl.
  - destruct (Ascii.eqb_spec c sep) as [->|_]; [exfalso; apply H; now left|].
    rewrite IH; [reflexivity|]. intro Hin. apply H. now right.
Qed.

Lemma digit_not_special c :
  is_digit c = true ->
  is_int_space c = false /\ Ascii.eqb c "+" = false
  /\ Ascii.eqb c "-" = false /\ Ascii.eqb c "_" = false
  /\ c <> bar.
Proof.
  unfold is_digit, is_int_space. rewrite andb_true_iff, !N.leb_le.
  intros [H1 H2]. split; [|split; [|split; [|split]]].
  - apply orb_false_iff. split.
    + apply andb_false_iff. right. apply N.leb_gt. lia.
    + apply N.eqb_neq. lia.
  - destruct (Ascii.eqb_spec c "+") as [->|_]; [|reflexivity].
    cbn in H1. lia.
  - destruct (Ascii.eqb_spec c "-") as [->|_]; [|reflexivity].
    cbn in H1. lia.
  - destruct (Ascii.eqb_spec c "_") as [->|_]; [|reflexivity].
    cbn in H2. lia.
  - intros ->. cbn in H2. lia.
Qed.

Lemma scan_digits_all x : forall acc,
  forallb is_digit x = true -> scan_digits x false acc = Digits (acc ++ x) [].
Proof.
  induction x as [|c x IH]; intros acc H; cbn [scan_digits].
  - now rewrite app_nil_r.
  - cbn [forallb] in H. apply andb_true_iff in H as [Hc Hx].
    rewrite Hc, IH by exact Hx. now rewrite <- app_assoc.
Qed.

(** On a string of digits the general [int] is the conversion the quota
    reader relies on. *)
Lemma int_of_digit_string digits :
  digits <> [] -> forallb is_digit digits = true ->
  Builtins.int digits = Py.int digits.
Proof.
  intros Hne Hd. destruct digits as [|c digits]; [congruence|].
  pose proof Hd as Hd'. cbn [forallb] in Hd'.
  apply andb_true_iff in Hd' as [Hc _].
  destruct (digit_not_special c Hc) as (H1 & H2 & H3 & H4 & _).
  unfold Builtins.int, Py.int. cbn [lstrip_by]. rewrite H1, H2, H3.
  cbn [startswith lit list_ascii_of_string]. rewrite Ascii.eqb_sym, H4.
  cbn [andb]. rewrite (scan_digits_all _ [] Hd). cbn [app].
  destruct (Nat.ltb int_max_str_digits (List.length (c :: digits)));
    reflexivity.
Qed.

Lemma digits_no_bar digits : forallb is_digit digits = true -> ~ In bar digits.
Proof.
  intros H Hin. rewrite forallb_forall in H.
  now destruct (digit_not_special bar (H bar Hin)) as (_ & _ & _ & _ & Hb).
Qed.

(** The program id of a markdown entry is the number between the first bar
    of its id and the second, or the end; an id without a bar raises the
    IndexError of the subscript. *)
Theorem entry_program_id_second_field :
  (forall prefix digits rest content,
     ~ In bar prefix ->
     digits <> [] -> forallb is_digit digits = true ->
     (List.length digits <= 4300)%nat ->
     rest = [] \/ (exists tail, rest = bar :: tail) ->
     entry_program_id {| entry_id := prefix ++ bar :: digits ++ rest;
                         page_content := content |}
     = Ok (int_of_digits digits))
  /\ (forall id content,
        ~ In bar id ->
        entry_program_id {| entry_id := id; page_content := content |}
        = Raise (Exception (lit "list index out of range"))).
Proof.
  split.
  - intros prefix digits rest content Hp Hne Hd Hlen Hrest.
    unfold entry_program_id. cbn [entry_id]. fold bar.
    rewrite split_app_sep by exact Hp.
    assert (E : exists parts, split bar (digits ++ rest) = digits :: parts).
    { destruct Hrest as [->|[tail ->]].
      - rewrite app_nil_r, split_no_sep by now apply digits_no_bar.
        now exists [].
      - rewrite split_app_sep by now apply digits_no_bar. eauto. }
    destruct E as [parts ->]. unfold getitem. cbn [nth_error].
    rewrite int_of_digit_string by assumption.
    unfold Py.int. apply Nat.ltb_ge in Hlen.
    unfold int_max_str_digits. now rewrite Hlen.
  - intros id content H. unfold entry_program_id. cbn [entry_id]. fold bar.
    now rewrite split_no_sep by exact H.
Qed.

Lemma entry_program_id_second_field_witness :
  entry_program_id {| entry_id := lit "1503|27447"; page_content := [] |}
  = Ok 27447%Z.
Proof.
  refine (proj1 entry_program_id_second_field (lit "1503") (lit "27447") []
            [] _ _ _ _ _).
  - vm_compute. intuition discriminate.
  - discriminate.
  - reflexivity.
  - vm_compute. lia.
  - now left.
Defined.


(** *** Chunks *)

Lemma apply_length {A B} (f : A -> result B) col bs :
  Assets.apply f col = Ok bs -> List.length bs = List.length col.
Proof.
  revert bs. induction col as [|a col IH]; intros bs; cbn [Assets.apply].
  - now intros [= <-].
  - destruct (f a); [|discriminate].
    destruct (Assets.apply f col); [|discriminate].
    intros [= <-]. cbn. now rewrite (IH _ eq_refl).
Qed.

Lemma apply_combine {A B} (f : A -> result B) col bs :
  Assets.apply f col = Ok bs ->
  forall b a, In (b, a) (combine bs col) -> f a = Ok b.
Proof.
  revert bs. induction col as [|a col IH]; intros bs; cbn [Assets.apply].
  - intros [= <-] b a' [].
  - destruct (f a) as [b0|] eqn:E; [|discriminate].
    destruct (Assets.apply f col) as [bs0|]; [|discriminate].
    intros [= <-] b a' [H|H].
    + now injection H as <- <-.
    + now apply (IH bs0 eq_refl).
Qed.

Lemma apply_first_raise {A B} (f : A -> result B) pre a post e :
  (forall a', In a' pre -> exists b, f a' = Ok b) ->
  f a = Raise e ->
  Assets.apply f (pre ++ a :: post) = Raise e.
Proof.
  intros Hpre Ha. induction pre as [|a' pre IH]; cbn [app Assets.apply].
  - now rewrite Ha.
  - destruct (Hpre a' (or_introl eq_refl)) as [b ->].
    rewrite IH; [reflexivity|]. intros x Hx. apply Hpre. now right.
Qed.

Lemma enumerate_fst {A} (l : list A) :
  map fst (enumerate l) = map Z.of_nat (seq 0 (List.length l)).
Proof.
  unfold enumerate. apply LoadFacts.map_fst_combine.
  now rewrite length_map, length_seq.
Qed.

Lemma enumerate_snd {A} (l : list A) : map snd (enumerate l) = l.
Proof.
  unfold enumerate. apply LoadFacts.map_snd_combine.
  now rewrite length_map, length_seq.
Qed.

Lemma combine_seq_nth {A} (l : list A) : forall start n t,
  In (n, t) (combine (seq start (List.length l)) l) ->
  (start <= n)%nat /\ nth_error l (n - start) = Some t.
Proof.
  induction l as [|a l IH]; intros start n t; cbn [List.length seq combine];
    [intros []|].
  intros [H|H].
  - injection H as <- <-. split; [lia|]. now rewrite Nat.sub_diag.
  - apply IH in H as [Hle Hn]. split; [lia|].
    replace (n - start)%nat with (S (n - S start)) by lia. exact Hn.
Qed.

Lemma enumerate_nth {A} (l : list A) i t :
  In (i, t) (enumerate l) ->
  (0 <= i)%Z /\ nth_error l (Z.to_nat i) = Some t.
Proof.
  unfold enumerate. intro H.
  assert (H' : In (Z.to_nat i, t) (combine (seq 0 (List.length l)) l)
               /\ (0 <= i)%Z).
  { revert H. generalize (seq 0 (List.length l)). intro ns. revert l.
    induction ns as [|n ns IH]; intros [|a l]; cbn [map combine];
      try (intros H; now destruct H).
    intros [H|H].
    - injection H as <- <-. rewrite Nat2Z.id. split; [now left|lia].
    - destruct (IH l H) as [H1 H2]. split; [now right|exact H2]. }
  destruct H' as [H' Hi]. split; [exact Hi|].
  apply combine_seq_nth in H' as [_ H']. now rewrite Nat.sub_0_r in H'.
Qed.

Section Chunks.

Variable split_text : str -> list str.

Lemma gather_chunks_eq raw : forall acc,
  gather_chunks split_text raw acc
  = match Assets.apply entry_program_id raw with
    | Ok ids =>
        Ok (acc ++ flat_map (document_chunks split_text) (combine ids raw))
    | Raise e => Raise e
    end.
Proof.
  induction raw as [|entry raw IH]; intro acc;
    cbn [gather_chunks Assets.apply].
  - cbn. now rewrite app_nil_r.
  - destruct (entry_program_id entry) as [pid|e]; [|reflexivity].
    rewrite IH. destruct (Assets.apply entry_program_id raw); [|reflexivity].
    cbn [combine flat_map]. now rewrite <- app_assoc.
Qed.

Lemma document_chunks_text doc :
  map chunk_text (document_chunks split_text doc)
  = split_text (page_content (snd doc)).
Proof.
  unfold document_chunks. rewrite map_map. cbn [chunk_text].
  apply enumerate_snd.
Qed.

Lemma document_chunks_keys doc :
  map chunk_key (document_chunks split_text doc)
  = map (fun i => (fst doc, Z.of_nat i))
        (seq 0 (List.length (split_text (page_content (snd doc))))).
Proof.
  unfold document_chunks, chunk_key. rewrite map_map.
  cbn [chunk_program_id chunk_index].
  rewrite <- (map_map fst (fun i => (fst doc, i))), enumerate_fst, map_map.
  reflexivity.
Qed.

Lemma keys_nodup (docs : list (Z * MarkdownEntry)) :
  NoDup (map fst docs) ->
  NoDup (map chunk_key (flat_map (document_chunks split_text) docs)).
Proof.
  induction docs as [|doc docs IH]; cbn [map flat_map]; [constructor|].
  intro H. apply NoDup_cons_iff in H as [Hd Hnd].
  rewrite map_app. apply NoDup_app.
  - rewrite document_chunks_keys.
    apply Finite.Injective_map_NoDup; [|apply seq_NoDup].
    intros a b [= E]. lia.
  - now apply IH.
  - intros key H1 H2. rewrite document_chunks_keys in H1.
    apply in_map_iff in H1 as (i & <- & _).
    apply in_map_iff in H2 as (c & Ec & Hc).
    apply in_flat_map in Hc as (doc' & Hdoc' & Hc).
    apply (in_map chunk_key) in Hc. rewrite document_chunks_keys in Hc.
    apply in_map_iff in Hc as (j & Ej & _). rewrite <- Ej in Ec.
    injection Ec as E _. apply Hd. rewrite <- E. now apply in_map.
Qed.

(** When [chunked_documents] returns, every entry id was read as a number;
    the chunk texts are the pieces of the documents, document after
    document and piece after piece, as the splitter gave them; each chunk
    carries the program id of its document and its position among the
    pieces of that document, counted from 0; and when the program ids of
    the entries are distinct, no two chunks have the same program id and
    index. *)
Theorem chunked_documents_numbering raw chunks :
  chunked_documents split_text raw = Ok chunks ->
  exists ids,
    Assets.apply entry_program_id raw = Ok ids
    /\ map chunk_text chunks
       = flat_map (fun entry => split_text (page_content entry)) raw
    /\ (forall c, In c chunks ->
          exists entry,
            In entry raw
            /\ entry_program_id entry = Ok (chunk_program_id c)
            /\ (0 <= chunk_index c)%Z
            /\ nth_error (split_text (page_content entry))
                         (Z.to_nat (chunk_index c))
               = Some (chunk_text c))
    /\ (NoDup ids -> NoDup (map chunk_key chunks)).
Proof.
  unfold chunked_documents. rewrite gather_chunks_eq.
  destruct (Assets.apply entry_program_id raw) as [ids|e] eqn:E;
    [|discriminate].
  cbn [app]. intros [= <-]. exists ids. split; [reflexivity|].
  pose proof (apply_length _ _ _ E) as L.
  pose proof (apply_combine _ _ _ E) as C.
  split; [|split].
  - clear C E. revert ids L.
    induction raw as [|entry raw IH]; intros [|pid ids] L;
      try discriminate; cbn [combine flat_map]; [reflexivity|].
    rewrite map_app, document_chunks_text. cbn [snd]. f_equal.
    apply IH. now injection L.
  - intros c Hc. apply in_flat_map in Hc as ([pid entry] & Hdoc & Hc).
    unfold document_chunks in Hc. cbn [fst snd] in Hc.
    apply in_map_iff in Hc as ([i t] & <- & Hit).
    cbn [chunk_program_id chunk_index chunk_text fst snd].
    exists entry. split; [exact (in_combine_r _ _ _ _ Hdoc)|].
    split; [exact (C _ _ Hdoc)|]. now apply enumerate_nth.
  - intro Hnd. apply keys_nodup.
    now rewrite LoadFacts.map_fst_combine by exact L.
Qed.

(** One entry whose id cannot be read fails the whole asset, with the
    error of the first such entry: the chunks of the documents before it
    are not returned. *)
Theorem chunked_documents_bad_id pre entry post e :
  (forall entry', In entry' pre ->
     exists pid, entry_program_id entry' = Ok pid) ->
  entry_program_id entry = Raise e ->
  chunked_documents split_text (pre ++ entry :: post) = Raise e.
Proof.
  intros Hpre He. unfold chunked_documents. rewrite gather_chunks_eq.
  now rewrite (apply_first_raise _ pre entry post e Hpre He).
Qed.

End Chunks.

Lemma chunked_documents_numbering_witness :
  map chunk_key
      [ {| chunk_program_id := 27447; chunk_index := 0;
           chunk_text := lit "Approximate Quota:" |};
        {| chunk_program_id := 27447; chunk_index := 1;
           chunk_text := lit "12" |};
        {| chunk_program_id := 27447; chunk_index := 2;
           chunk_text := lit "Accreditation status : Accredited" |};
        {| chunk_program_id := 27448; chunk_index := 0;
           chunk_text := lit "Rural training" |} ]
  = [(27447, 0); (27447, 1); (27447, 2); (27448, 0)]%Z
  /\ exists ids, Assets.apply entry_program_id sample_markdown = Ok ids.
Proof.
  split; [reflexivity|].
  destruct (chunked_documents_numbering sample_split_text sample_markdown _
              eq_refl) as (ids & E & _).
  exists ids. exact E.
Defined.

Lemma chunked_documents_bad_id_witness :
  chunked_documents sample_split_text
    (sample_markdown
     ++ [ {| entry_id := lit "27449"; page_content := lit "Lost" |} ])
  = Raise (Exception (lit "list index out of range")).
Proof.
  apply (chunked_documents_bad_id sample_split_text sample_markdown
           {| entry_id := lit "27449"; page_content := lit "Lost" |} []).
  - intros entry' [<-|[<-|[]]]; eexists; reflexivity.
  - reflexivity.
Defined.

(** *** Dicts *)

Section DictFacts.

Context {K V : Type}.
Variable key_eqb : K -> K -> bool.
Hypothesis key_eqb_eq : forall a b, key_eqb a b = true <-> a = b.

Lemma key_eqb_refl k : key_eqb k k = true.
Proof. now apply key_eqb_eq. Qed.




Lemma dict_set_keys k (v : V) d k' :
  In k' (map fst (dict_set key_eqb k v d)) <-> k' = k \/ In k' (map fst d).
Proof.
  induction d as [|[k0 v0] d IH]; cbn [dict_set map fst In].
  - intuition.
  - destruct (key_eqb k k0) eqn:E; cbn [map fst In].
    + apply key_eqb_eq in E. subst k0. intuition.
    + rewrite IH. intuition.
Qed.

Lemma dict_get_none k (d : list (K * V)) :
  dict_get key_eqb k d = None <-> ~ In k (map fst d).
Proof.
  unfold dict_get. induction d as [|[k0 v0] d IH]; cbn [find map fst In].
  - intuition.
  - destruct (key_eqb k k0) eqn:E; cbn [option_map].
    + apply key_eqb_eq in E. subst k0. split; [discriminate|].
      intro H. exfalso. apply H. now left.
    + rewrite IH. split.
      * intros H [H'|H']; [|now apply H]. subst k0.
        now rewrite key_eqb_refl in E.
      * intros H H'. apply H. now right.
Qed.

End DictFacts.

(** *** Programs *)

(** What the keys and the values of [inst_map] are. *)
Lemma inst_map_from insts : forall d name,
  In name (map fst (fold_left
                      (fun d i => dict_set Str.eqb (inst_name i) (inst_id i) d)
                      insts d))
  <-> In name (map fst d) \/ In name (map inst_name insts).
Proof.
  induction insts as [|i insts IH]; intros d name; cbn [fold_left map In].
  - intuition.
  - rewrite IH, (dict_set_keys Str.eqb TransformFacts.str_eqb_eq).
    intuition.
Qed.

Lemma inst_map_keys insts name :
  In name (map fst (inst_map_of insts)) <-> In name (map inst_name insts).
Proof.
  unfold inst_map_of. rewrite inst_map_from. cbn [map In]. intuition.
Qed.


(** **** What [stg_programs] can raise before it reads a program *)




Lemma fill_markdown_lookup_first_raise pre entry post e : forall d,
  (forall entry', In entry' pre ->
     exists pid, entry_program_id entry' = Ok pid) ->
  entry_program_id entry = Raise e ->
  fill_markdown_lookup (pre ++ entry :: post) d = Raise e.
Proof.
  induction pre as [|entry0 pre IH]; intros d Hpre He;
    cbn [app fill_markdown_lookup].
  - now rewrite He.
  - destruct (Hpre entry0 (or_introl eq_refl)) as [pid ->].
    apply IH; [|exact He]. intros x Hx. apply Hpre. now right.
Qed.


Lemma apply_total {A B} (f : A -> result B) col :
  (forall a, In a col -> exists b, f a = Ok b) ->
  exists bs, Assets.apply f col = Ok bs /\ List.length bs = List.length col.
Proof.
  induction col as [|a col IH]; intro H; cbn [Assets.apply].
  - now exists [].
  - destruct (H a (or_introl eq_refl)) as [b ->].
    destruct IH as (bs & -> & L); [intros x Hx; apply H; now right|].
    exists (b :: bs). cbn. now rewrite L.
Qed.

(** The column [institution_id] has no null exactly when every school is
    the name of a staged institution. *)
Lemma institution_id_notna raw insts :
  forallb notna
    (map (fun r => dict_get Str.eqb (school_name r) (inst_map_of insts)) raw)
  = forallb (fun r => existsb (Str.eqb (school_name r))
                              (map inst_name insts)) raw.
Proof.
  rewrite LoadMore.forallb_of_map. apply LoadMore.forallb_same. intro r.
  destruct (dict_get Str.eqb (school_name r) (inst_map_of insts)) eqn:E.
  - cbn [notna]. symmetry. apply existsb_exists. exists (school_name r).
    split; [|apply TransformFacts.str_eqb_refl].
    apply inst_map_keys.
    destruct (in_dec (list_eq_dec ascii_dec) (school_name r)
                     (map fst (inst_map_of insts))) as [Hin|Hout];
      [exact Hin|].
    apply (dict_get_none Str.eqb TransformFacts.str_eqb_eq) in Hout.
    congruence.
  - cbn [notna]. symmetry.
    apply (dict_get_none Str.eqb TransformFacts.str_eqb_eq) in E.
    destruct (existsb _ _) eqn:X; [|reflexivity].
    apply existsb_exists in X as (name & Hin & Hn).
    apply TransformFacts.str_eqb_eq in Hn. subst name.
    exfalso. apply E. now apply inst_map_keys.
Qed.

(** A markdown entry whose id cannot be read fails [stg_programs], with
    the error of the first such entry, whatever the program table and the
    institutions are: even when no program has a description at all. *)
Theorem stg_programs_bad_markdown_id raw pre entry post insts e :
  (forall entry', In entry' pre ->
     exists pid, entry_program_id entry' = Ok pid) ->
  entry_program_id entry = Raise e ->
  stg_programs raw (pre ++ entry :: post) insts = Raise e.
Proof.
  intros Hpre He. unfold stg_programs.
  now rewrite (fill_markdown_lookup_first_raise pre entry post e [] Hpre He).
Qed.

(** When the markdown ids can be read, one program whose school is not the
    name of a staged institution makes [stg_programs] raise its assertion
    "Some schools didn't map to institutions": the name is matched byte by
    byte, and no row is dropped to get a result. *)
Theorem stg_programs_unmapped_school raw md insts lookup r :
  fill_markdown_lookup md [] = Ok lookup ->
  In r raw ->
  ~ In (school_name r) (map inst_name insts) ->
  stg_programs raw md insts
  = Raise (AssertionError (lit "Some schools didn't map to institutions")).
Proof.
  intros Hmd Hr Hout. unfold stg_programs. rewrite Hmd.
  rewrite institution_id_notna.
  assert (F : forallb (fun r => existsb (Str.eqb (school_name r))
                                        (map inst_name insts)) raw = false).
  { destruct (forallb _ raw) eqn:F; [|reflexivity].
    rewrite forallb_forall in F. specialize (F r Hr).
    apply existsb_exists in F as (name & Hin & Hn).
    apply TransformFacts.str_eqb_eq in Hn. subst name. contradiction. }
  now rewrite F.
Qed.

(** When the markdown ids can be read, every school is a staged
    institution and every quota can be read, a program table that does not
    have exactly 815 rows is refused, with the number of rows it has in
    the message. *)
Theorem stg_programs_row_count raw md insts lookup :
  fill_markdown_lookup md [] = Ok lookup ->
  (forall r, In r raw -> In (school_name r) (map inst_name insts)) ->
  (forall r, In r raw ->
     exists q, extract_quota (markdown_of lookup (program_stream_id r))
               = Ok q) ->
  List.length raw <> 815%nat ->
  stg_programs raw md insts
  = Raise (AssertionError
             (lit "Expected 815 programs, got "
              ++ str_of_Z (Z.of_nat (List.length raw)))).
Proof.
  intros Hmd Hin Hq Hlen. unfold stg_programs. rewrite Hmd.
  pose proof (institution_id_notna raw insts) as Enot.
  assert (F : forallb (fun r => existsb (Str.eqb (school_name r))
                                        (map inst_name insts)) raw = true).
  { apply forallb_forall. intros r Hr. apply existsb_exists.
    exists (school_name r). split; [now apply Hin|].
    apply TransformFacts.str_eqb_refl. }
  rewrite F in Enot. rewrite Enot. cbn [negb].
  destruct (apply_total _ raw Hq) as (quota & -> & Lq).
  assert (L : List.length
                (combine
                   (combine raw
                      (present
                         (map (fun r => dict_get Str.eqb (school_name r)
                                                 (inst_map_of insts)) raw)))
                   quota)
              = List.length raw).
  { rewrite !length_combine, present_length, length_map, Lq by exact Enot.
    lia. }
  rewrite !length_map, L.
  apply Nat.eqb_neq in Hlen. now rewrite Hlen.
Qed.


(** An entry whose id has no bar, after two that are in order. *)
Lemma stg_programs_bad_markdown_id_witness :
  stg_programs sample_master
    (sample_markdown
     ++ [ {| entry_id := lit "27449"; page_content := lit "Lost" |} ])
    []
  = Raise (Exception (lit "list index out of range")).
Proof.
  apply (stg_programs_bad_markdown_id sample_master sample_markdown
           {| entry_id := lit "27449"; page_content := lit "Lost" |} []).
  - intros entry' [<-|[<-|[]]]; eexists; reflexivity.
  - reflexivity.
Defined.

(** A program of a school spelled without its accent. *)
Lemma stg_programs_unmapped_school_witness :
  stg_programs [master_row 5 (lit "Universite de Montreal")] sample_markdown
    [ {| inst_id := 5; inst_name := lit "Université de Montréal";
         inst_language := lit "fr" |} ]
  = Raise (AssertionError (lit "Some schools didn't map to institutions")).
Proof.
  apply (stg_programs_unmapped_school _ sample_markdown _ sample_lookup
           (master_row 5 (lit "Universite de Montreal"))).
  - vm_compute. reflexivity.
  - now left.
  - intros [H|[]]. vm_compute in H. discriminate.
Defined.

(** A program table of one row. *)
Lemma stg_programs_row_count_witness :
  stg_programs [master_row 447 (lit "McGill University")] sample_markdown
    [ {| inst_id := 6; inst_name := lit "McGill University";
         inst_language := lit "en" |} ]
  = Raise (AssertionError (lit "Expected 815 programs, got 1")).
Proof.
  apply (stg_programs_row_count
           [master_row 447 (lit "McGill University")] sample_markdown
           [ {| inst_id := 6; inst_name := lit "McGill University";
                inst_language := lit "en" |} ] sample_lookup).
  - vm_compute. reflexivity.
  - intros r [<-|[]]. now left.
  - intros r [<-|[]]. eexists. vm_compute. reflexivity.
  - cbn. discriminate.
Defined.


End AssetsFacts.
